(** * Kinematics of [src/physics/Particle.cc] (MATHUSLA Mu-Simulation)

    The file embeds the momentum conversions, the [BasicParticle] getters and
    setters, the particle-property lookup and the [Particle] vertex setters.

    Two readings of the C++ [double] are used, each for what it can express.

    - [Physics]: exact arithmetic.  A [double] or [long double] is a real
      number, a libm function is the function it approximates
      ([std::atanh] is [atanh], [std::atan2] is [atan2], ...).  Rounding,
      overflow, NaN and the sign of zero do not exist here.  This is the
      reading in which the algebraic identities of the code are stated.
    - [IEEE]: binary64 values.  A [double] is a [float]; [+], [*], [/], [sqrt]
      and [==] are the IEEE operations, and libm is a parameter constrained
      only by what ISO C Annex F fixes at special values.  This is the reading
      in which the zero-momentum state, whose behaviour hangs on the sign of
      zero, is evaluated. *)

From Stdlib Require Import Floats.
From Stdlib Require Import Reals Rtrigo_facts Lra Lia ZArith String List.
Import ListNotations.

Local Open Scope R_scope.

(** ** Real hyperbolic and two-argument arc tangent *)

(** [std::atanh] over the reals, for arguments in (-1, 1). *)
Definition atanh (u : R) : R := ln ((1 + u) / (1 - u)) / 2.

(** [std::atan2] over the reals: the angle in (-PI, PI] of the point
    (x, y), by the usual quadrant cases.  At the origin, where the angle
    is not defined, the value is that of [atan2(+0, +0)]. *)
Definition atan2 (y x : R) : R :=
  if Rlt_dec 0 x then atan (y / x)
  else if Rlt_dec x 0 then
    if Rle_dec 0 y then atan (y / x) + PI else atan (y / x) - PI
  else if Rlt_dec 0 y then PI / 2
  else if Rlt_dec y 0 then - (PI / 2)
  else 0.

(** [std::hypot]. *)
Definition hypot (a b : R) : R := sqrt (a * a + b * b).

(** ** The Geant4 collaborators, over the reals *)

Module G4.

(** [G4ThreeVector] ([CLHEP::Hep3Vector]): three components by value. *)
Record G4ThreeVector : Type := mkVec { x : R; y : R; z : R }.

Definition mag2 (v : G4ThreeVector) : R := x v * x v + y v * y v + z v * z v.

Definition mag (v : G4ThreeVector) : R := sqrt (mag2 v).

(** [a * v] and [v * a]. *)
Definition scale (a : R) (v : G4ThreeVector) : G4ThreeVector :=
  mkVec (a * x v) (a * y v) (a * z v).

(** [Hep3Vector::unit]: [tot > 0 ? p *= 1/sqrt(tot) : p]. *)
Definition unit (v : G4ThreeVector) : G4ThreeVector :=
  if Rlt_dec 0 (mag2 v) then scale (1 / sqrt (mag2 v)) v else v.

Definition zero : G4ThreeVector := mkVec 0 0 0.

(** What the code reads from a [G4ParticleDefinition]. *)
Record G4ParticleDefinition : Type := mkDef {
  GetPDGMass : R;
  GetPDGCharge : R;
  GetParticleName : string
}.

(** [G4ParticleTable::FindParticle]: a definition, or the null pointer. *)
Definition G4ParticleTable : Type := Z -> option G4ParticleDefinition.

End G4.

(** ** Table lookups as an effect

    A computation that may query the particle table carries the list of
    the identifiers it has asked for, and fails when it dereferences a
    null definition. *)

Module Lookup.

Definition M (A : Type) : Type := list Z -> option A * list Z.

Definition ret {A : Type} (a : A) : M A := fun log => (Some a, log).

Definition fault {A : Type} : M A := fun log => (None, log).

Definition bind {A B : Type} (m : M A) (k : A -> M B) : M B :=
  fun log =>
    match m log with
    | (Some a, log') => k a log'
    | (None, log') => (None, log')
    end.

(** A step that asks the table nothing: a value, or a failure. *)
Definition lift {A : Type} (o : option A) : M A := fun log => (o, log).

Definition value {A : Type} (m : M A) (log : list Z) : option A := fst (m log).

Definition queries {A : Type} (m : M A) (log : list Z) : list Z := snd (m log).

End Lookup.

Notation "x <- m ;; k" := (Lookup.bind m (fun x => k))
  (at level 61, m at next level, right associativity).

(** ** namespace Physics, exact arithmetic *)

Module Physics.

Import Lookup.

(** Modelled from the spec: [PseudoLorentzTriplet] is declared in
    physics/Particle.hh, which is not among the sources; its fields are
    those the aggregate initialisers of Particle.cc fill, in order. *)
Record PseudoLorentzTriplet : Type := mkPLT { pT : R; eta : R; phi : R }.

(** Modelled from the spec: [BasicParticle] is declared in
    physics/Particle.hh; the fields are those Particle.cc reads and writes. *)
Record BasicParticle : Type := mkBasic { id : Z; px : R; py : R; pz : R }.

(** Modelled from the spec: [Particle] is declared in physics/Particle.hh as
    a [BasicParticle] with a vertex. *)
Record Particle : Type := mkParticle {
  basic :> BasicParticle;
  t : R;
  x : R;
  y : R;
  z : R
}.

(** [Convert(const G4ThreeVector&)]. *)
Definition Convert_momentum (momentum : G4.G4ThreeVector) : PseudoLorentzTriplet :=
  let magnitude := G4.mag momentum in
  if Req_dec_T magnitude 0 then mkPLT 0 0 0
  else
    let eta := atanh (G4.x momentum / magnitude) in
    mkPLT (magnitude / cosh eta) eta (atan2 (G4.y momentum) (- G4.z momentum)).

(** [Convert(const PseudoLorentzTriplet&)]. *)
Definition Convert_triplet (triplet : PseudoLorentzTriplet) : G4.G4ThreeVector :=
  G4.mkVec (pT triplet * sinh (eta triplet))
           (pT triplet * sin (phi triplet))
           (- pT triplet * cos (phi triplet)).

(** The conversion of a [double] to [int]: the fractional part is
    discarded, and the behaviour is undefined when the result does not fit. *)
Definition INT_MIN : Z := -2147483648.

Definition INT_MAX : Z := 2147483647.

Definition trunc (r : R) : Z := if Rle_dec 0 r then Zfloor r else Zceil r.

Definition double_to_int (r : R) : option Z :=
  let n := trunc r in
  if andb (INT_MIN <=? n)%Z (n <=? INT_MAX)%Z then Some n else None.

(** What a caller of [GetParticleMass] or [GetParticleCharge] receives
    for the [double] the definition holds. *)
Definition through_int (r : R) : option R := option_map IZR (double_to_int r).

Section Table.

Variable table : G4.G4ParticleTable.

Definition _get_particle_def (id : Z) : M (option G4.G4ParticleDefinition) :=
  fun log => (Some (table id), log ++ [id]).

(** [f(def)] for an accessor [f] that dereferences [def]. *)
Definition deref {Output : Type} (f : G4.G4ParticleDefinition -> Output)
    (def : option G4.G4ParticleDefinition) : M Output :=
  match def with
  | Some d => ret (f d)
  | None => fault
  end.

(** [_get_particle_property]: [Output] is deduced from [default_value], and
    the [return] statement converts what [f] returns, of type [Result], to
    [Output]; [convert] is that conversion. *)
Definition _get_particle_property {Result Output : Type}
    (convert : Result -> option Output) (id : Z)
    (f : option G4.G4ParticleDefinition -> M Result)
    (default_value : Output) : M Output :=
  if (id =? 0)%Z then ret default_value
  else def <- _get_particle_def id ;; r <- f def ;; lift (convert r).

(** The default is the [int] literal 0, so [Output] is [int]; the [int]
    goes back to [double] on return from [GetParticleMass]. *)
Definition GetParticleMass (id : Z) : M R :=
  n <- _get_particle_property double_to_int id (deref G4.GetPDGMass) 0%Z ;;
  ret (IZR n).

Definition GetParticleCharge (id : Z) : M R :=
  n <- _get_particle_property double_to_int id (deref G4.GetPDGCharge) 0%Z ;;
  ret (IZR n).

(** The default is a [G4String], as is what the accessor returns. *)
Definition GetParticleName (id : Z) : M string :=
  _get_particle_property Some id (deref G4.GetParticleName) EmptyString.

End Table.

(** *** BasicParticle getters *)

Definition p (s : BasicParticle) : G4.G4ThreeVector := G4.mkVec (px s) (py s) (pz s).

Definition BasicParticle_pT (s : BasicParticle) : R :=
  let magnitude := G4.mag (G4.mkVec (px s) (py s) (pz s)) in
  if Req_dec_T magnitude 0 then 0
  else magnitude / cosh (atanh (px s / magnitude)).

Definition BasicParticle_eta (s : BasicParticle) : R :=
  let magnitude := G4.mag (G4.mkVec (px s) (py s) (pz s)) in
  if Req_dec_T magnitude 0 then 0
  else atanh (px s / magnitude).

Definition BasicParticle_phi (s : BasicParticle) : R := atan2 (py s) (- pz s).

Definition pseudo_lorentz_triplet (s : BasicParticle) : PseudoLorentzTriplet :=
  Convert_momentum (G4.mkVec (px s) (py s) (pz s)).

Definition p_mag (s : BasicParticle) : R := G4.mag (G4.mkVec (px s) (py s) (pz s)).

Definition p_unit (s : BasicParticle) : G4.G4ThreeVector :=
  G4.unit (G4.mkVec (px s) (py s) (pz s)).

Definition mass (table : G4.G4ParticleTable) (s : BasicParticle) : M R :=
  GetParticleMass table (id s).

Definition e (table : G4.G4ParticleTable) (s : BasicParticle) : M R :=
  m <- mass table s ;; ret (hypot (p_mag s) m).

Definition ke (table : G4.G4ParticleTable) (s : BasicParticle) : M R :=
  total <- e table s ;; m <- mass table s ;; ret (total - m).

(** *** BasicParticle setters *)

(** [set_p(double, double, double)]. *)
Definition set_p3 (s : BasicParticle) (new_px new_py new_pz : R) : BasicParticle :=
  mkBasic (id s) new_px new_py new_pz.

(** [set_p(const G4ThreeVector&)]. *)
Definition set_p (s : BasicParticle) (new_p : G4.G4ThreeVector) : BasicParticle :=
  set_p3 s (G4.x new_p) (G4.y new_p) (G4.z new_p).

(** The literal [3.1415926535897932384626L]: PI to 23 significant digits,
    more than an x87 [long double] holds, so that it denotes the
    [long double] nearest to PI.  In exact arithmetic it is read as PI. *)
Definition pi_L : R := PI.

Definition _eta_to_theta (eta : R) : R :=
  let subangle := 2 * atan (exp (- Rabs eta)) in
  if Rlt_dec eta 0 then pi_L - subangle else subangle.

Definition _rotate (x y theta : R) : R * R :=
  let cosine := cos theta in
  let sine := sin theta in
  (x * cosine - y * sine, x * sine + y * cosine).

Definition set_eta (s : BasicParticle) (new_eta : R) : BasicParticle :=
  let rotation :=
    _rotate (px s) (- pz s) (_eta_to_theta new_eta - _eta_to_theta (BasicParticle_eta s)) in
  mkBasic (id s) (fst rotation) (py s) (- snd rotation).

Definition set_phi (s : BasicParticle) (new_phi : R) : BasicParticle :=
  let rotation := _rotate (- pz s) (py s) (new_phi - BasicParticle_phi s) in
  mkBasic (id s) (px s) (snd rotation) (- fst rotation).

(** [set_pseudo_lorentz_triplet(const PseudoLorentzTriplet&)]. *)
Definition set_pseudo_lorentz_triplet (s : BasicParticle)
    (triplet : PseudoLorentzTriplet) : BasicParticle :=
  set_p s (Convert_triplet triplet).

Definition set_pT (s : BasicParticle) (new_pT : R) : BasicParticle :=
  set_pseudo_lorentz_triplet s
    (mkPLT new_pT (BasicParticle_eta s) (BasicParticle_phi s)).

Definition set_ke (table : G4.G4ParticleTable) (s : BasicParticle) (new_ke : R)
    : M BasicParticle :=
  m <- mass table s ;;
  ret (set_p s (G4.scale (sqrt (new_ke * (new_ke + 2 * m))) (p_unit s))).

Definition set_p_mag (s : BasicParticle) (magnitude : R) : BasicParticle :=
  set_p s (G4.scale magnitude (p_unit s)).

(** [set_p_unit(const G4ThreeVector&)]. *)
Definition set_p_unit (s : BasicParticle) (new_p_unit : G4.G4ThreeVector)
    : BasicParticle :=
  let magnitude := p_mag s in
  set_p s (G4.scale (if Req_dec_T magnitude 0 then 1 else magnitude)
                    (G4.unit new_p_unit)).

(** [set_p_unit(double, double, double)]. *)
Definition set_p_unit3 (s : BasicParticle) (pu_x pu_y pu_z : R) : BasicParticle :=
  set_p_unit s (G4.mkVec pu_x pu_y pu_z).

(** [set_pseudo_lorentz_triplet(double, double, double)]. *)
Definition set_pseudo_lorentz_triplet3 (s : BasicParticle) (new_pT new_eta new_phi : R)
    : BasicParticle :=
  set_pseudo_lorentz_triplet s (mkPLT new_pT new_eta new_phi).

(** [BasicParticle::name] and [BasicParticle::charge]. *)
Definition name (table : G4.G4ParticleTable) (s : BasicParticle) : M string :=
  GetParticleName table (id s).

Definition charge (table : G4.G4ParticleTable) (s : BasicParticle) : M R :=
  GetParticleCharge table (id s).

(** *** Particle vertex setters *)

(** The kinematic fields of [q'] are those of [q]. *)
Definition same_kinematics (q q' : Particle) : Prop :=
  id q' = id q /\ px q' = px q /\ py q' = py q /\ pz q' = pz q.

(** [set_vertex(double, double, double)]. *)
Definition set_vertex3 (q : Particle) (new_x new_y new_z : R) : Particle :=
  mkParticle (basic q) (t q) new_x new_y new_z.

(** [set_vertex(double, double, double, double)]. *)
Definition set_vertex4 (q : Particle) (new_t new_x new_y new_z : R) : Particle :=
  mkParticle (basic q) new_t new_x new_y new_z.

(** [set_vertex(double, const G4ThreeVector&)]. *)
Definition set_vertex_tv (q : Particle) (new_t : R) (vertex : G4.G4ThreeVector)
    : Particle :=
  set_vertex4 q new_t (G4.x vertex) (G4.y vertex) (G4.z vertex).

(** [set_vertex(const G4ThreeVector&)]. *)
Definition set_vertex_v (q : Particle) (vertex : G4.G4ThreeVector) : Particle :=
  set_vertex3 q (G4.x vertex) (G4.y vertex) (G4.z vertex).

End Physics.

(** ** namespace Physics, binary64 values

    The same conversions and getters on IEEE doubles.  Arithmetic and
    comparison are the primitive binary64 operations; the libm functions
    are the fields of an arbitrary [libm], of which [annex_F] records the
    special values ISO C Annex F prescribes (F.10.1.4 to F.10.2.5). *)

Module IEEE.

Local Open Scope float_scope.

(** [G4ThreeVector], [PseudoLorentzTriplet] and [BasicParticle] as in
    [Physics], with [double] fields. *)
Record G4ThreeVector : Type := mkVec { x : float; y : float; z : float }.

(** [Hep3Vector::mag]: [std::sqrt(dx*dx + dy*dy + dz*dz)]. *)
Definition mag (v : G4ThreeVector) : float :=
  PrimFloat.sqrt (x v * x v + y v * y v + z v * z v).

Record PseudoLorentzTriplet : Type := mkPLT { pT : float; eta : float; phi : float }.

Record BasicParticle : Type := mkBasic { id : Z; px : float; py : float; pz : float }.

(** The libm functions that the conversions and getters call. *)
Record libm : Type := mkLibm {
  m_atanh : float -> float;
  m_cosh : float -> float;
  m_sinh : float -> float;
  m_sin : float -> float;
  m_cos : float -> float;
  m_atan2 : float -> float -> float
}.

(** The double nearest to PI, which [atan2] returns for PI. *)
Definition M_PI : float := 0x1.921fb54442d18p+1.

(** [atan2(+-0, -0)] is [+-PI] and [atan2(+-0, +0)] is [+-0]; [sinh] and
    [sin] of [+0] are [+0] and [cos] of it is 1; [atanh(1)], [cosh] and
    [sinh] of plus infinity are plus infinity. *)
Record annex_F (L : libm) : Prop := mkAnnexF {
  atan2_pzero_nzero : m_atan2 L 0 (- 0) = M_PI;
  atan2_nzero_nzero : m_atan2 L (- 0) (- 0) = - M_PI;
  atan2_pzero_pzero : m_atan2 L 0 0 = 0;
  atan2_nzero_pzero : m_atan2 L (- 0) 0 = - 0;
  sinh_pzero : m_sinh L 0 = 0;
  sin_pzero : m_sin L 0 = 0;
  cos_pzero : m_cos L 0 = 1;
  atanh_one : m_atanh L 1 = infinity;
  cosh_inf : m_cosh L infinity = infinity;
  sinh_inf : m_sinh L infinity = infinity
}.

(** A [libm] that is right at the special values and nowhere else: it
    only shows that [annex_F] can be met. *)
Definition special_values_only : libm :=
  mkLibm
    (fun u => if u =? 1 then infinity else nan)
    (fun a => if a =? infinity then infinity else nan)
    (fun a => if a =? infinity then infinity else if a =? 0 then a else nan)
    (fun a => if a =? 0 then a else nan)
    (fun a => if a =? 0 then 1 else nan)
    (fun b a =>
       match PrimFloat.classify b, PrimFloat.classify a with
       | PZero, PZero => 0
       | NZero, PZero => - 0
       | PZero, NZero => M_PI
       | NZero, NZero => - M_PI
       | _, _ => nan
       end).

Section Libm.

Variable L : libm.

(** [Convert(const G4ThreeVector&)]. *)
Definition Convert_momentum (momentum : G4ThreeVector) : PseudoLorentzTriplet :=
  let magnitude := mag momentum in
  if magnitude =? 0 then mkPLT 0 0 0
  else
    let eta := m_atanh L (x momentum / magnitude) in
    mkPLT (magnitude / m_cosh L eta) eta (m_atan2 L (y momentum) (- z momentum)).

(** [Convert(const PseudoLorentzTriplet&)]. *)
Definition Convert_triplet (triplet : PseudoLorentzTriplet) : G4ThreeVector :=
  mkVec (pT triplet * m_sinh L (eta triplet))
        (pT triplet * m_sin L (phi triplet))
        (- pT triplet * m_cos L (phi triplet)).

Definition BasicParticle_pT (s : BasicParticle) : float :=
  let magnitude := mag (mkVec (px s) (py s) (pz s)) in
  if magnitude =? 0 then 0
  else magnitude / m_cosh L (m_atanh L (px s / magnitude)).

Definition BasicParticle_eta (s : BasicParticle) : float :=
  let magnitude := mag (mkVec (px s) (py s) (pz s)) in
  if magnitude =? 0 then 0
  else m_atanh L (px s / magnitude).

Definition BasicParticle_phi (s : BasicParticle) : float :=
  m_atan2 L (py s) (- pz s).

Definition pseudo_lorentz_triplet (s : BasicParticle) : PseudoLorentzTriplet :=
  Convert_momentum (mkVec (px s) (py s) (pz s)).

End Libm.

End IEEE.

(** ** Sample data *)

Module Examples.

Definition muon_mass : R := 105.6583745.

(** A table that knows the muon (PDG code 13) and nothing else. *)
Definition muon_only : G4.G4ParticleTable :=
  fun id => if (id =? 13)%Z then Some (G4.mkDef muon_mass (-1) "mu-") else None.

(** A table that knows the down quark (PDG code 1, charge -1/3). *)
Definition down_quark_only : G4.G4ParticleTable :=
  fun id => if (id =? 1)%Z then Some (G4.mkDef 4.7 (- (1 / 3)) "d") else None.

End Examples.

(** * Properties *)

(** ** Vertex setters *)

(** C10: every [set_vertex] overload leaves [id], [px], [py], [pz] as they
    were, and the two overloads without a time argument leave [t] as it was. *)
Theorem set_vertex_frame :
  forall (q : Physics.Particle) (new_t new_x new_y new_z : R) (vertex : G4.G4ThreeVector),
    Physics.same_kinematics q (Physics.set_vertex3 q new_x new_y new_z) /\
    Physics.same_kinematics q (Physics.set_vertex4 q new_t new_x new_y new_z) /\
    Physics.same_kinematics q (Physics.set_vertex_tv q new_t vertex) /\
    Physics.same_kinematics q (Physics.set_vertex_v q vertex) /\
    Physics.t (Physics.set_vertex3 q new_x new_y new_z) = Physics.t q /\
    Physics.t (Physics.set_vertex_v q vertex) = Physics.t q.
Proof.
  intros q new_t new_x new_y new_z vertex.
  unfold Physics.same_kinematics.
  repeat split.
Qed.

(** What the vertex setters do write. *)
Lemma set_vertex_writes :
  forall (q : Physics.Particle) (new_t : R) (vertex : G4.G4ThreeVector),
    let q' := Physics.set_vertex_tv q new_t vertex in
    Physics.t q' = new_t /\ Physics.x q' = G4.x vertex /\
    Physics.y q' = G4.y vertex /\ Physics.z q' = G4.z vertex.
Proof.
  intros q new_t vertex; cbn; repeat split.
Qed.

(** ** Zero momentum *)

Lemma mag_zero : G4.mag G4.zero = 0.
Proof.
  unfold G4.mag, G4.mag2; cbn.
  replace (0 * 0 + 0 * 0 + 0 * 0) with 0 by ring.
  apply sqrt_0.
Qed.

(** C2: the zero vector converts to the triplet {0, 0, 0}, and that
    triplet converts to the zero vector. *)
Theorem Convert_zero_fixed_point :
  Physics.Convert_momentum G4.zero = Physics.mkPLT 0 0 0 /\
  Physics.Convert_triplet (Physics.mkPLT 0 0 0) = G4.zero.
Proof.
  split.
  - unfold Physics.Convert_momentum.
    rewrite mag_zero.
    destruct (Req_dec_T 0 0) as [_ | Hne]; [reflexivity | now elim Hne].
  - unfold Physics.Convert_triplet, G4.zero; cbn.
    f_equal; ring.
Qed.

(** The same on doubles: the triplet is the same, and the vector that
    comes back is (+0, +0, -0), which compares equal to zero. *)
Lemma IEEE_Convert_zero_fixed_point :
  forall L : IEEE.libm, IEEE.annex_F L ->
    IEEE.Convert_momentum L (IEEE.mkVec 0 0 0) = IEEE.mkPLT 0 0 0 /\
    IEEE.Convert_triplet L (IEEE.mkPLT 0 0 0) = IEEE.mkVec 0 0 (- 0)%float /\
    PrimFloat.eqb (- 0) 0 = true.
Proof.
  intros L HF; repeat split.
  unfold IEEE.Convert_triplet; cbn.
  rewrite (IEEE.sinh_pzero L HF), (IEEE.sin_pzero L HF), (IEEE.cos_pzero L HF).
  reflexivity.
Qed.

(** ** Property lookup *)

(** C7: for [id == 0] the three lookups return 0, 0 and the empty string and
    ask the table nothing, whatever the table holds; for every other [id]
    they ask the table once, for [id], and return the property of the
    definition it gives (failing on a null definition), the mass and the
    charge after their passage through [int]. *)
Theorem sentinel_lookup :
  forall (table : G4.G4ParticleTable) (log : list Z),
    Physics.GetParticleMass table 0 log = (Some 0, log) /\
    Physics.GetParticleCharge table 0 log = (Some 0, log) /\
    Physics.GetParticleName table 0 log = (Some EmptyString, log) /\
    forall id : Z, id <> 0%Z ->
      Physics.GetParticleMass table id log
        = (match table id with
           | Some d => Physics.through_int (G4.GetPDGMass d)
           | None => None
           end, log ++ [id]) /\
      Physics.GetParticleCharge table id log
        = (match table id with
           | Some d => Physics.through_int (G4.GetPDGCharge d)
           | None => None
           end, log ++ [id]) /\
      Physics.GetParticleName table id log
        = (option_map G4.GetParticleName (table id), log ++ [id]).
Proof.
  intros table log.
  repeat split; try reflexivity;
    unfold Physics.GetParticleMass, Physics.GetParticleCharge,
      Physics.GetParticleName, Physics._get_particle_property;
    (destruct (Z.eqb_spec id 0) as [E | _]; [contradiction |]);
    unfold Lookup.bind, Physics._get_particle_def, Physics.through_int, Lookup.lift;
    destruct (table id) as [d |]; cbn; try reflexivity.
  - destruct (Physics.double_to_int (G4.GetPDGMass d)); reflexivity.
  - destruct (Physics.double_to_int (G4.GetPDGCharge d)); reflexivity.
Qed.

Lemma trunc_muon_mass : Physics.trunc Examples.muon_mass = 105%Z.
Proof.
  unfold Physics.trunc, Examples.muon_mass.
  destruct (Rle_dec 0 105.6583745) as [_ | Hn]; [| lra].
  apply Zfloor_eq. lra.
Qed.

Lemma muon_mass_to_int : Physics.double_to_int Examples.muon_mass = Some 105%Z.
Proof.
  unfold Physics.double_to_int.
  rewrite trunc_muon_mass. reflexivity.
Qed.

Lemma muon_mass_through_int : Physics.through_int Examples.muon_mass = Some 105.
Proof.
  unfold Physics.through_int.
  rewrite muon_mass_to_int. reflexivity.
Qed.

(** The mass a muon record reports, whatever was asked before. *)
Lemma muon_mass_lookup :
  forall (log : list Z) (px py pz : R),
    Lookup.value (Physics.mass Examples.muon_only (Physics.mkBasic 13 px py pz)) log
      = Some 105.
Proof.
  intros log px py pz.
  unfold Lookup.value, Physics.mass, Physics.GetParticleMass,
    Physics._get_particle_property, Physics._get_particle_def, Lookup.bind,
    Lookup.lift, Physics.deref, Lookup.ret.
  cbn -[Physics.double_to_int].
  rewrite muon_mass_to_int. reflexivity.
Qed.

(** The muon is asked for, and its mass of 105.658 MeV comes back as 105;
    the sentinel is not asked for. *)
Lemma sentinel_lookup_witness :
  Physics.GetParticleMass Examples.muon_only 13 [] = (Some 105, [13%Z]) /\
  Physics.GetParticleMass Examples.muon_only 0 [] = (Some 0, []).
Proof.
  destruct (sentinel_lookup Examples.muon_only []) as (H0 & _ & _ & Hid).
  destruct (Hid 13%Z) as (Hm & _); [discriminate |].
  split; [| exact H0].
  rewrite Hm. cbn. rewrite muon_mass_through_int. reflexivity.
Defined.

(** ** Getters against [Convert] *)

(** Over the reals the duplicated formulas are the same formulas. *)
Lemma getters_agree_exact :
  forall s : Physics.BasicParticle,
    Physics.BasicParticle_pT s = Physics.pT (Physics.pseudo_lorentz_triplet s) /\
    Physics.BasicParticle_eta s = Physics.eta (Physics.pseudo_lorentz_triplet s) /\
    (Physics.p_mag s <> 0 ->
     Physics.BasicParticle_phi s = Physics.phi (Physics.pseudo_lorentz_triplet s)).
Proof.
  intros s.
  unfold Physics.BasicParticle_pT, Physics.BasicParticle_eta, Physics.BasicParticle_phi,
    Physics.pseudo_lorentz_triplet, Physics.Convert_momentum, Physics.p_mag.
  cbn.
  destruct (Req_dec_T (G4.mag (G4.mkVec (Physics.px s) (Physics.py s) (Physics.pz s))) 0);
    repeat split; try reflexivity; intros; contradiction.
Qed.

(** On doubles the three getters agree with [Convert] whenever the
    magnitude does not compare equal to zero. *)
Lemma IEEE_getters_agree_nonzero :
  forall (L : IEEE.libm) (s : IEEE.BasicParticle),
    PrimFloat.eqb (IEEE.mag (IEEE.mkVec (IEEE.px s) (IEEE.py s) (IEEE.pz s))) 0 = false ->
    IEEE.BasicParticle_pT L s = IEEE.pT (IEEE.pseudo_lorentz_triplet L s) /\
    IEEE.BasicParticle_eta L s = IEEE.eta (IEEE.pseudo_lorentz_triplet L s) /\
    IEEE.BasicParticle_phi L s = IEEE.phi (IEEE.pseudo_lorentz_triplet L s).
Proof.
  intros L s Hmag.
  unfold IEEE.BasicParticle_pT, IEEE.BasicParticle_eta, IEEE.BasicParticle_phi,
    IEEE.pseudo_lorentz_triplet, IEEE.Convert_momentum.
  cbv zeta. rewrite Hmag. repeat split.
Qed.

Lemma special_values_only_annex_F : IEEE.annex_F IEEE.special_values_only.
Proof.
  constructor; vm_compute; reflexivity.
Qed.

(** C3: at the zero-momentum state (+0, +0, +0) the getters [pT] and [eta]
    return the fields of [Convert], and [phi] does not: it has no
    zero-magnitude guard and evaluates [atan2(+0, -0)], which is PI, while
    [Convert] returns [phi = 0]. *)
Theorem phi_getter_zero_momentum :
  forall L : IEEE.libm, IEEE.annex_F L ->
    let s := IEEE.mkBasic 0 0 0 0 in
    IEEE.BasicParticle_pT L s = IEEE.pT (IEEE.pseudo_lorentz_triplet L s) /\
    IEEE.BasicParticle_eta L s = IEEE.eta (IEEE.pseudo_lorentz_triplet L s) /\
    IEEE.BasicParticle_phi L s = IEEE.M_PI /\
    IEEE.phi (IEEE.pseudo_lorentz_triplet L s) = 0%float /\
    PrimFloat.eqb (IEEE.BasicParticle_phi L s)
                  (IEEE.phi (IEEE.pseudo_lorentz_triplet L s)) = false.
Proof.
  intros L HF s.
  assert (Hphi : IEEE.BasicParticle_phi L s = IEEE.M_PI).
  { unfold IEEE.BasicParticle_phi, s; cbn.
    exact (IEEE.atan2_pzero_nzero L HF). }
  repeat split; try assumption.
  rewrite Hphi. reflexivity.
Qed.

Lemma phi_getter_zero_momentum_witness :
  IEEE.BasicParticle_phi IEEE.special_values_only (IEEE.mkBasic 0 0 0 0) = IEEE.M_PI /\
  IEEE.phi (IEEE.pseudo_lorentz_triplet IEEE.special_values_only (IEEE.mkBasic 0 0 0 0))
    = 0%float.
Proof.
  destruct (phi_getter_zero_momentum IEEE.special_values_only special_values_only_annex_F)
    as (_ & _ & H1 & H2 & _).
  split; [exact H1 | exact H2].
Defined.

(** ** Hyperbolic functions and their inverses *)

Lemma cosh_pos : forall a, 0 < cosh a.
Proof.
  intros a; unfold cosh.
  pose proof (exp_pos a); pose proof (exp_pos (- a)); lra.
Qed.

Lemma exp_half_sq : forall q, 0 < q -> exp (ln q / 2) * exp (ln q / 2) = q.
Proof.
  intros q Hq.
  rewrite <- exp_plus.
  replace (ln q / 2 + ln q / 2) with (ln q) by field.
  now apply exp_ln.
Qed.

Lemma atanh_arg_pos : forall u, -1 < u < 1 -> 0 < (1 + u) / (1 - u).
Proof.
  intros u Hu. apply Rdiv_lt_0_compat; lra.
Qed.

Lemma tanh_range : forall a, -1 < tanh a < 1.
Proof.
  intros a; unfold tanh, sinh, cosh.
  pose proof (exp_pos a) as Ha; pose proof (exp_pos (- a)) as Hb.
  replace ((exp a - exp (- a)) / 2 / ((exp a + exp (- a)) / 2))
    with ((exp a - exp (- a)) / (exp a + exp (- a))) by (field; lra).
  split.
  - apply Rmult_lt_reg_r with (exp a + exp (- a)); [lra |].
    unfold Rdiv; rewrite Rmult_assoc, Rinv_l by lra. lra.
  - apply Rmult_lt_reg_r with (exp a + exp (- a)); [lra |].
    unfold Rdiv; rewrite Rmult_assoc, Rinv_l by lra. lra.
Qed.

Lemma atanh_tanh : forall a, atanh (tanh a) = a.
Proof.
  intros a; unfold atanh, tanh, sinh, cosh.
  pose proof (exp_pos a) as Ha; pose proof (exp_pos (- a)) as Hb.
  assert (Hab : exp a * exp (- a) = 1).
  { rewrite <- exp_plus. replace (a + - a) with 0 by ring. apply exp_0. }
  replace ((1 + (exp a - exp (- a)) / 2 / ((exp a + exp (- a)) / 2)) /
           (1 - (exp a - exp (- a)) / 2 / ((exp a + exp (- a)) / 2)))
    with (exp a * exp a).
  - rewrite <- exp_plus, ln_exp. field.
  - transitivity (exp a / exp (- a)); [| field; lra].
    apply Rmult_eq_reg_r with (exp (- a)); [| lra].
    unfold Rdiv at 1. rewrite (Rmult_assoc (exp a) (/ exp (- a))), Rinv_l by lra.
    rewrite Rmult_assoc, Hab. ring.
Qed.

Lemma tanh_atanh : forall u, -1 < u < 1 -> tanh (atanh u) = u.
Proof.
  intros u Hu.
  pose proof (atanh_arg_pos u Hu) as Hq.
  pose proof (exp_half_sq _ Hq) as Hsq.
  unfold tanh, sinh, cosh, atanh.
  set (a := exp (ln ((1 + u) / (1 - u)) / 2)) in *.
  assert (Ha : 0 < a) by apply exp_pos.
  rewrite exp_Ropp. fold a.
  assert (Ha2 : a * a * (1 - u) = 1 + u).
  { rewrite Hsq. field. lra. }
  assert (Hden : a * a + 1 <> 0) by nra.
  transitivity ((a * a - 1) / (a * a + 1)); [field; split; lra |].
  apply Rmult_eq_reg_r with (a * a + 1); [| assumption].
  unfold Rdiv; rewrite Rmult_assoc, Rinv_l by assumption. nra.
Qed.

Lemma cosh_atanh : forall u, -1 < u < 1 -> cosh (atanh u) * sqrt (1 - u * u) = 1.
Proof.
  intros u Hu.
  pose proof (atanh_arg_pos u Hu) as Hq.
  pose proof (exp_half_sq _ Hq) as Hsq.
  assert (Hpos : 0 < 1 - u * u) by nra.
  assert (Hc : 0 < cosh (atanh u)) by apply cosh_pos.
  assert (Hsqr : (cosh (atanh u) * cosh (atanh u)) * (1 - u * u) = 1).
  { unfold cosh, atanh.
    set (a := exp (ln ((1 + u) / (1 - u)) / 2)) in *.
    assert (Ha : 0 < a) by apply exp_pos.
    rewrite exp_Ropp. fold a.
    assert (Ha2 : a * a = (1 + u) / (1 - u)) by exact Hsq.
    replace ((a + / a) / 2 * ((a + / a) / 2))
      with ((a * a + 2 + / (a * a)) / 4) by (field; lra).
    rewrite Ha2. field. lra. }
  assert (Hs : 0 < sqrt (1 - u * u)) by now apply sqrt_lt_R0.
  assert (Hss : sqrt (1 - u * u) * sqrt (1 - u * u) = 1 - u * u)
    by (apply sqrt_sqrt; lra).
  set (c := cosh (atanh u)) in *. set (r := sqrt (1 - u * u)) in *.
  assert (Hp : 0 < c * r) by now apply Rmult_lt_0_compat.
  assert (Hcr : (c * r) * (c * r) = 1) by (rewrite <- Hsqr, <- Hss; ring).
  nra.
Qed.

(** ** The two-argument arc tangent *)

Lemma sqrt_slope : forall x y, x <> 0 ->
  sqrt (1 + (y / x)²) * Rabs x = sqrt (x * x + y * y).
Proof.
  intros x y Hx.
  rewrite <- (sqrt_Rsqr_abs x).
  rewrite <- sqrt_mult.
  - f_equal. unfold Rsqr. field. assumption.
  - pose proof (Rle_0_sqr (y / x)). lra.
  - apply Rle_0_sqr.
Qed.

Lemma atan_slope : forall x y, x <> 0 ->
  sqrt (x * x + y * y) * cos (atan (y / x)) = Rabs x /\
  sqrt (x * x + y * y) * sin (atan (y / x)) = Rabs x * (y / x).
Proof.
  intros x y Hx.
  rewrite cos_atan, sin_atan, <- (sqrt_slope x y Hx).
  assert (Hs : 0 < sqrt (1 + (y / x)²)).
  { apply sqrt_lt_R0. pose proof (Rle_0_sqr (y / x)). lra. }
  split; field; lra.
Qed.

Lemma atan2_polar_form : forall x y, 0 < x * x + y * y ->
  sqrt (x * x + y * y) * cos (atan2 y x) = x /\
  sqrt (x * x + y * y) * sin (atan2 y x) = y.
Proof.
  intros x y Hr. unfold atan2.
  destruct (Rlt_dec 0 x) as [Hx | Hx].
  - destruct (atan_slope x y) as [Hc Hs]; [lra |].
    rewrite Hc, Hs, Rabs_pos_eq by lra. split; [reflexivity | field; lra].
  - destruct (Rlt_dec x 0) as [Hx' | Hx'].
    + destruct (atan_slope x y) as [Hc Hs]; [lra |].
      rewrite Rabs_left in Hc, Hs by assumption.
      replace (- x * (y / x)) with (- y) in Hs by (field; lra).
      destruct (Rle_dec 0 y).
      * rewrite neg_cos, neg_sin. split; nra.
      * replace (atan (y / x) - PI) with (- (- atan (y / x) + PI)) by ring.
        rewrite cos_neg, sin_neg, neg_cos, neg_sin, cos_neg, sin_neg. split; nra.
    + assert (x = 0) by lra. subst x.
      replace (0 * 0 + y * y) with (y * y) in * by ring.
      destruct (Rlt_dec 0 y) as [Hy | Hy].
      * rewrite cos_PI2, sin_PI2, sqrt_square by lra. split; ring.
      * destruct (Rlt_dec y 0) as [Hy' | Hy'].
        -- rewrite cos_neg, sin_neg, cos_PI2, sin_PI2.
           replace (y * y) with (- y * - y) by ring.
           rewrite sqrt_square by lra. split; ring.
        -- assert (y = 0) by lra. subst y. lra.
Qed.

Lemma atan_nonpos : forall u, u <= 0 -> atan u <= 0.
Proof.
  intros u [Hu | Hu].
  - apply Rlt_le. rewrite <- atan_0. now apply atan_increasing.
  - subst u. rewrite atan_0. lra.
Qed.

Lemma atan_pos : forall u, 0 < u -> 0 < atan u.
Proof.
  intros u Hu. rewrite <- atan_0. now apply atan_increasing.
Qed.

Lemma atan2_bound : forall x y, - PI < atan2 y x <= PI.
Proof.
  intros x y. unfold atan2.
  pose proof PI_RGT_0 as Hpi.
  pose proof (atan_bound (y / x)) as Hb.
  destruct (Rlt_dec 0 x) as [Hx | Hx]; [lra |].
  destruct (Rlt_dec x 0) as [Hx' | Hx'].
  - destruct (Rle_dec 0 y) as [Hy | Hy].
    + assert (y / x <= 0).
      { unfold Rdiv. replace 0 with (y * 0) by ring.
        apply Rmult_le_compat_l; [assumption |].
        apply Rlt_le, Rinv_lt_0_compat; assumption. }
      pose proof (atan_nonpos _ H). lra.
    + assert (0 < y / x).
      { replace (y / x) with ((- y) * / (- x)) by (field; lra).
        apply Rmult_lt_0_compat; [lra |]. apply Rinv_0_lt_compat; lra. }
      pose proof (atan_pos _ H). lra.
  - destruct (Rlt_dec 0 y); [lra |]. destruct (Rlt_dec y 0); lra.
Qed.

Lemma angle_unique : forall a b,
  - PI < a <= PI -> - PI < b <= PI -> cos a = cos b -> sin a = sin b -> a = b.
Proof.
  intros a b Ha Hb Hc Hs.
  pose proof PI_RGT_0 as Hpi.
  assert (Hsin : sin (a - b) = 0) by (rewrite sin_minus, Hc, Hs; ring).
  assert (Hcos : cos (a - b) = 1).
  { rewrite cos_minus, Hc, Hs. pose proof (sin2_cos2 b) as H. unfold Rsqr in H. lra. }
  destruct (sin_eq_0_0 _ Hsin) as [k Hk].
  assert (Hk1 : (-2 < k < 2)%Z).
  { split; apply lt_IZR.
    - apply Rmult_lt_reg_r with PI; [assumption |]. rewrite <- Hk. lra.
    - apply Rmult_lt_reg_r with PI; [assumption |]. rewrite <- Hk. lra. }
  assert (Hcases : k = (-1)%Z \/ k = 0%Z \/ k = 1%Z) by lia.
  destruct Hcases as [E | [E | E]]; subst k.
  - exfalso. replace (a - b) with (- PI) in Hcos by lra.
    rewrite cos_neg, cos_PI in Hcos. lra.
  - lra.
  - exfalso. replace (a - b) with PI in Hcos by lra.
    rewrite cos_PI in Hcos. lra.
Qed.

Lemma atan2_of_polar : forall r a, 0 < r -> - PI < a <= PI ->
  atan2 (r * sin a) (r * cos a) = a.
Proof.
  intros r a Hr Ha.
  assert (Hsq : r * cos a * (r * cos a) + r * sin a * (r * sin a) = r * r).
  { pose proof (sin2_cos2 a) as H. unfold Rsqr in H.
    replace (r * cos a * (r * cos a) + r * sin a * (r * sin a))
      with (r * r * (sin a * sin a + cos a * cos a)) by ring.
    rewrite H. ring. }
  destruct (atan2_polar_form (r * cos a) (r * sin a)) as [Hc Hs].
  { rewrite Hsq. nra. }
  rewrite Hsq, sqrt_square in Hc, Hs by lra.
  apply angle_unique; [apply atan2_bound | assumption | |].
  - apply Rmult_eq_reg_l with r; lra.
  - apply Rmult_eq_reg_l with r; lra.
Qed.

(** ** Round trip of the conversions *)

Section RoundTrip.

Variables vx vy vz : R.
Hypothesis transverse : vy <> 0 \/ vz <> 0.

Let m : R := G4.mag (G4.mkVec vx vy vz).

Lemma transverse_pos : 0 < vy * vy + vz * vz.
Proof. clear m. destruct transverse; nra. Qed.

Lemma mag_pos : 0 < m.
Proof.
  pose proof transverse_pos.
  unfold m, G4.mag, G4.mag2; cbn. apply sqrt_lt_R0. nra.
Qed.

Lemma mag_sq : m * m = vx * vx + vy * vy + vz * vz.
Proof.
  pose proof transverse_pos.
  unfold m, G4.mag, G4.mag2; cbn. apply sqrt_sqrt. nra.
Qed.

(** With transverse momentum the argument of [atanh] is inside (-1, 1). *)
Lemma longitudinal_fraction : -1 < vx / m < 1.
Proof.
  pose proof transverse_pos. pose proof mag_pos as Hm. pose proof mag_sq as Hsq.
  assert (Hx : - m < vx < m) by (split; nra).
  split.
  - apply Rmult_lt_reg_r with m; [assumption |].
    unfold Rdiv. rewrite Rmult_assoc, Rinv_l by lra. lra.
  - apply Rmult_lt_reg_r with m; [assumption |].
    unfold Rdiv. rewrite Rmult_assoc, Rinv_l by lra. lra.
Qed.

(** [magnitude / cosh(eta)] is the length of the transverse part. *)
Lemma pT_is_transverse :
  m / cosh (atanh (vx / m)) = sqrt (vy * vy + vz * vz).
Proof.
  pose proof transverse_pos as Ht. pose proof mag_pos as Hm. pose proof mag_sq as Hsq.
  pose proof (cosh_atanh _ longitudinal_fraction) as Hc.
  pose proof (cosh_pos (atanh (vx / m))) as Hcp.
  replace (m / cosh (atanh (vx / m))) with (m * sqrt (1 - vx / m * (vx / m))).
  - rewrite <- (sqrt_square m) at 1 by lra.
    rewrite <- sqrt_mult.
    + f_equal.
      replace (m * m * (1 - vx / m * (vx / m))) with (m * m - vx * vx) by (field; lra).
      rewrite Hsq. ring.
    + nra.
    + pose proof longitudinal_fraction. nra.
  - assert (Hinv : / cosh (atanh (vx / m)) = sqrt (1 - vx / m * (vx / m))).
    { apply Rmult_eq_reg_l with (cosh (atanh (vx / m))); [| lra].
      rewrite Rinv_r by lra. symmetry; exact Hc. }
    unfold Rdiv at 3. rewrite Hinv. reflexivity.
Qed.

Lemma round_trip_components :
  Physics.Convert_triplet (Physics.Convert_momentum (G4.mkVec vx vy vz))
    = G4.mkVec vx vy vz.
Proof.
  pose proof transverse_pos as Ht. pose proof mag_pos as Hm.
  unfold Physics.Convert_momentum. fold m. cbv zeta.
  destruct (Req_dec_T m 0) as [E | _]; [lra |].
  unfold Physics.Convert_triplet; cbn.
  rewrite pT_is_transverse.
  destruct (atan2_polar_form (- vz) vy) as [Hc Hs].
  { replace (- vz * - vz) with (vz * vz) by ring. lra. }
  replace (- vz * - vz + vy * vy) with (vy * vy + vz * vz) in Hc, Hs by ring.
  f_equal.
  - rewrite <- pT_is_transverse.
    pose proof (tanh_atanh _ longitudinal_fraction) as Ht'.
    pose proof (cosh_pos (atanh (vx / m))) as Hcp.
    unfold tanh in Ht'.
    replace (m / cosh (atanh (vx / m)) * sinh (atanh (vx / m)))
      with (m * (sinh (atanh (vx / m)) / cosh (atanh (vx / m)))) by (field; lra).
    rewrite Ht'. field. lra.
  - exact Hs.
  - rewrite Ropp_mult_distr_l_reverse, Hc. ring.
Qed.

End RoundTrip.

(** C1: a vector with [y <> 0] or [z <> 0] (hence nonzero) is reproduced
    exactly by the conversion to a triplet followed by the conversion
    back, in exact arithmetic. *)
Theorem Convert_round_trip :
  forall v : G4.G4ThreeVector,
    G4.y v <> 0 \/ G4.z v <> 0 ->
    Physics.Convert_triplet (Physics.Convert_momentum v) = v.
Proof.
  intros [vx vy vz] Hyz. cbn in Hyz.
  now apply round_trip_components.
Qed.

(** The vector (3, 4, 0) of the concrete scenario. *)
Lemma Convert_round_trip_witness :
  Physics.Convert_triplet (Physics.Convert_momentum (G4.mkVec 3 4 0)) = G4.mkVec 3 4 0.
Proof.
  apply (Convert_round_trip (G4.mkVec 3 4 0)).
  left; cbn; lra.
Defined.

(** ** Pseudorapidity and polar angle *)

Lemma eta_to_theta_nonneg :
  forall eta : R, 0 <= eta -> Physics._eta_to_theta eta = 2 * atan (exp (- eta)).
Proof.
  intros eta He. unfold Physics._eta_to_theta.
  destruct (Rlt_dec eta 0); [lra |].
  rewrite Rabs_pos_eq by assumption. reflexivity.
Qed.

Lemma eta_to_theta_neg :
  forall eta : R, eta < 0 -> Physics._eta_to_theta eta = PI - 2 * atan (exp eta).
Proof.
  intros eta He. unfold Physics._eta_to_theta, Physics.pi_L.
  destruct (Rlt_dec eta 0); [| lra].
  rewrite Rabs_left, Ropp_involutive by assumption. reflexivity.
Qed.

Lemma atan_exp_below : forall a : R, a < 0 -> 2 * atan (exp a) < PI / 2.
Proof.
  intros a Ha.
  assert (H : atan (exp a) < atan 1).
  { apply atan_increasing. rewrite <- exp_0. now apply exp_increasing. }
  rewrite atan_1 in H. lra.
Qed.

Lemma atan_exp_at_most : forall a : R, a <= 0 -> 2 * atan (exp a) <= PI / 2.
Proof.
  intros a [Ha | Ha].
  - apply Rlt_le. now apply atan_exp_below.
  - subst a. rewrite exp_0, atan_1. lra.
Qed.

Lemma eta_to_theta_decreasing :
  forall a b : R, a < b -> Physics._eta_to_theta b < Physics._eta_to_theta a.
Proof.
  intros a b Hab.
  destruct (Rlt_dec a 0) as [Ha | Ha]; destruct (Rlt_dec b 0) as [Hb | Hb].
  - rewrite !eta_to_theta_neg by assumption.
    assert (atan (exp a) < atan (exp b)) by (apply atan_increasing, exp_increasing; lra).
    lra.
  - rewrite (eta_to_theta_neg a), (eta_to_theta_nonneg b) by lra.
    pose proof (atan_exp_below a Ha).
    pose proof (atan_exp_at_most (- b)). lra.
  - lra.
  - rewrite !eta_to_theta_nonneg by lra.
    assert (atan (exp (- b)) < atan (exp (- a)))
      by (apply atan_increasing, exp_increasing; lra).
    lra.
Qed.

Lemma eta_to_theta_0 : Physics._eta_to_theta 0 = PI / 2.
Proof.
  rewrite eta_to_theta_nonneg by lra.
  rewrite Ropp_0, exp_0, atan_1. field.
Qed.

(** Below [ln (tan d)] the angle [2 * atan (exp a)] is below [2 * d]. *)
Lemma atan_exp_small :
  forall d a : R, 0 < d < PI / 2 -> a < ln (tan d) -> 0 < 2 * atan (exp a) < 2 * d.
Proof.
  intros d a Hd Ha.
  assert (Ht : 0 < tan d) by (apply tan_gt_0; lra).
  assert (Hlt : atan (exp a) < atan (tan d)).
  { apply atan_increasing. rewrite <- (exp_ln (tan d)) by assumption.
    now apply exp_increasing. }
  rewrite atan_tan in Hlt by lra.
  pose proof (atan_pos _ (exp_pos a)). lra.
Qed.

Lemma eta_to_theta_limit_plus :
  forall eps : R, 0 < eps ->
    exists M : R, forall eta : R, M < eta -> Rabs (Physics._eta_to_theta eta - 0) < eps.
Proof.
  intros eps Heps.
  set (d := Rmin (eps / 2) 1).
  assert (Hd : 0 < d < PI / 2).
  { unfold d. pose proof PI2_1. split.
    - apply Rmin_glb_lt; lra.
    - pose proof (Rmin_r (eps / 2) 1). lra. }
  assert (Hde : 2 * d <= eps) by (unfold d; pose proof (Rmin_l (eps / 2) 1); lra).
  exists (Rmax 0 (- ln (tan d))).
  intros eta Heta.
  pose proof (Rmax_l 0 (- ln (tan d))). pose proof (Rmax_r 0 (- ln (tan d))).
  rewrite eta_to_theta_nonneg by lra.
  destruct (atan_exp_small d (- eta) Hd) as [Hlo Hhi]; [lra |].
  rewrite Rminus_0_r, Rabs_pos_eq; lra.
Qed.

Lemma eta_to_theta_limit_minus :
  forall eps : R, 0 < eps ->
    exists M : R, forall eta : R, eta < M -> Rabs (Physics._eta_to_theta eta - PI) < eps.
Proof.
  intros eps Heps.
  set (d := Rmin (eps / 2) 1).
  assert (Hd : 0 < d < PI / 2).
  { unfold d. pose proof PI2_1. split.
    - apply Rmin_glb_lt; lra.
    - pose proof (Rmin_r (eps / 2) 1). lra. }
  assert (Hde : 2 * d <= eps) by (unfold d; pose proof (Rmin_l (eps / 2) 1); lra).
  exists (Rmin 0 (ln (tan d))).
  intros eta Heta.
  pose proof (Rmin_l 0 (ln (tan d))). pose proof (Rmin_r 0 (ln (tan d))).
  rewrite eta_to_theta_neg by lra.
  destruct (atan_exp_small d eta Hd) as [Hlo Hhi]; [lra |].
  replace (PI - 2 * atan (exp eta) - PI) with (- (2 * atan (exp eta))) by ring.
  rewrite Rabs_Ropp, Rabs_pos_eq; lra.
Qed.

(** C8: [_eta_to_theta] returns [subangle = 2 atan (exp (-|eta|))] for
    [eta >= 0] and [PI - subangle] otherwise; it is strictly decreasing on
    the whole line, is [PI / 2] at 0, tends to 0 at plus infinity and to PI
    at minus infinity. *)
Theorem eta_to_theta_spec :
  (forall eta : R,
     let subangle := 2 * atan (exp (- Rabs eta)) in
     (0 <= eta -> Physics._eta_to_theta eta = subangle) /\
     (eta < 0 -> Physics._eta_to_theta eta = PI - subangle)) /\
  (forall a b : R, a < b -> Physics._eta_to_theta b < Physics._eta_to_theta a) /\
  Physics._eta_to_theta 0 = PI / 2 /\
  (forall eps : R, 0 < eps ->
     exists M : R, forall eta : R, M < eta -> Rabs (Physics._eta_to_theta eta - 0) < eps) /\
  (forall eps : R, 0 < eps ->
     exists M : R, forall eta : R, eta < M -> Rabs (Physics._eta_to_theta eta - PI) < eps).
Proof.
  split; [| split; [| split; [| split]]].
  - intros eta subangle; unfold subangle; split; intros He.
    + rewrite Rabs_pos_eq by assumption. now apply eta_to_theta_nonneg.
    + rewrite Rabs_left, Ropp_involutive by assumption. now apply eta_to_theta_neg.
  - exact eta_to_theta_decreasing.
  - exact eta_to_theta_0.
  - exact eta_to_theta_limit_plus.
  - exact eta_to_theta_limit_minus.
Qed.

(** Pseudorapidity 5 gives a smaller polar angle than pseudorapidity -5. *)
Lemma eta_to_theta_spec_witness :
  Physics._eta_to_theta 5 < Physics._eta_to_theta (-5).
Proof.
  destruct eta_to_theta_spec as (_ & Hdec & _).
  apply (Hdec (-5) 5). lra.
Defined.

(** The polar angle of pseudorapidity [eta]: its cosine is [tanh eta]
    and its sine is [1 / cosh eta]. *)

Lemma double_atan :
  forall u : R,
    cos (2 * atan u) = (1 - u * u) / (1 + u * u) /\
    sin (2 * atan u) = 2 * u / (1 + u * u).
Proof.
  intros u.
  assert (Hpos : 0 < 1 + u * u) by nra.
  assert (Hs : 0 < sqrt (1 + u²)) by (apply sqrt_lt_R0; unfold Rsqr; lra).
  assert (Hss : sqrt (1 + u²) * sqrt (1 + u²) = 1 + u * u)
    by (apply sqrt_sqrt; unfold Rsqr; lra).
  rewrite cos_2a_cos, sin_2a, cos_atan, sin_atan.
  split.
  - replace (2 * (1 / sqrt (1 + u²)) * (1 / sqrt (1 + u²)) - 1)
      with (2 / (sqrt (1 + u²) * sqrt (1 + u²)) - 1) by (field; lra).
    rewrite Hss. field. lra.
  - replace (2 * (u / sqrt (1 + u²)) * (1 / sqrt (1 + u²)))
      with (2 * u / (sqrt (1 + u²) * sqrt (1 + u²))) by (field; lra).
    rewrite Hss. reflexivity.
Qed.

Lemma exp_opp_inv : forall a : R, exp a * exp (- a) = 1.
Proof.
  intros a. rewrite <- exp_plus. replace (a + - a) with 0 by ring. apply exp_0.
Qed.

Lemma cos_eta_to_theta : forall eta : R, cos (Physics._eta_to_theta eta) = tanh eta.
Proof.
  intros eta.
  pose proof (exp_pos eta) as Hp. pose proof (exp_pos (- eta)) as Hn.
  pose proof (exp_opp_inv eta) as Hpn.
  assert (Hinv : exp eta = / exp (- eta)).
  { apply Rmult_eq_reg_r with (exp (- eta)); [| lra]. rewrite Rinv_l by lra. exact Hpn. }
  assert (Hinv' : exp (- eta) = / exp eta).
  { apply Rmult_eq_reg_l with (exp eta); [| lra]. rewrite Rinv_r by lra. exact Hpn. }
  unfold tanh, sinh, cosh.
  destruct (Rlt_dec eta 0) as [He | He].
  - rewrite eta_to_theta_neg, cos_pi_minus by assumption.
    destruct (double_atan (exp eta)) as [Hc _]. rewrite Hc, Hinv'.
    field. split; [lra | nra].
  - rewrite eta_to_theta_nonneg by lra.
    destruct (double_atan (exp (- eta))) as [Hc _]. rewrite Hc, Hinv.
    field. split; [lra | nra].
Qed.

Lemma sin_eta_to_theta : forall eta : R, sin (Physics._eta_to_theta eta) = / cosh eta.
Proof.
  intros eta.
  pose proof (exp_pos eta) as Hp. pose proof (exp_pos (- eta)) as Hn.
  pose proof (exp_opp_inv eta) as Hpn.
  assert (Hinv : exp eta = / exp (- eta)).
  { apply Rmult_eq_reg_r with (exp (- eta)); [| lra]. rewrite Rinv_l by lra. exact Hpn. }
  assert (Hinv' : exp (- eta) = / exp eta).
  { apply Rmult_eq_reg_l with (exp eta); [| lra]. rewrite Rinv_r by lra. exact Hpn. }
  unfold cosh.
  destruct (Rlt_dec eta 0) as [He | He].
  - rewrite eta_to_theta_neg, sin_pi_minus by assumption.
    destruct (double_atan (exp eta)) as [_ Hs]. rewrite Hs, Hinv'.
    field. split; [lra | nra].
  - rewrite eta_to_theta_nonneg by lra.
    destruct (double_atan (exp (- eta))) as [_ Hs]. rewrite Hs, Hinv.
    field. split; [lra | nra].
Qed.

(** ** Rotations *)

Lemma rotate_norm :
  forall a b theta : R,
    let r := Physics._rotate a b theta in
    fst r * fst r + snd r * snd r = a * a + b * b.
Proof.
  intros a b theta; cbn.
  pose proof (sin2_cos2 theta) as H. unfold Rsqr in H.
  replace ((a * cos theta - b * sin theta) * (a * cos theta - b * sin theta) +
           (a * sin theta + b * cos theta) * (a * sin theta + b * cos theta))
    with ((a * a + b * b) * (sin theta * sin theta + cos theta * cos theta)) by ring.
  rewrite H. ring.
Qed.

(** A pair at angle [alpha] turned by [beta - alpha] lands at angle [beta]. *)
Lemma rotate_polar :
  forall r alpha beta : R,
    Physics._rotate (r * cos alpha) (r * sin alpha) (beta - alpha)
      = (r * cos beta, r * sin beta).
Proof.
  intros r alpha beta. unfold Physics._rotate.
  assert (Hc : cos beta = cos (alpha + (beta - alpha))) by (f_equal; ring).
  assert (Hs : sin beta = sin (alpha + (beta - alpha))) by (f_equal; ring).
  rewrite Hc, Hs, cos_plus, sin_plus. f_equal; ring.
Qed.

(** ** [set_eta] *)

Lemma eta_of_mag :
  forall s : Physics.BasicParticle,
    Physics.p_mag s <> 0 ->
    Physics.BasicParticle_eta s = atanh (Physics.px s / Physics.p_mag s).
Proof.
  intros s Hm. unfold Physics.BasicParticle_eta, Physics.p_mag in *. cbv zeta.
  destruct (Req_dec_T _ 0) as [E | _]; [contradiction | reflexivity].
Qed.

Lemma atanh_0 : atanh 0 = 0.
Proof.
  unfold atanh. replace ((1 + 0) / (1 - 0)) with 1 by field.
  rewrite ln_1. field.
Qed.

(** Without longitudinal momentum the pseudorapidity is 0. *)
Lemma eta_without_px :
  forall s : Physics.BasicParticle, Physics.px s = 0 -> Physics.BasicParticle_eta s = 0.
Proof.
  intros s Hpx. unfold Physics.BasicParticle_eta. cbv zeta.
  destruct (Req_dec_T _ 0) as [_ | _]; [reflexivity |].
  rewrite Hpx. unfold Rdiv. rewrite Rmult_0_l. apply atanh_0.
Qed.

Lemma set_eta_p_mag :
  forall (s : Physics.BasicParticle) (new_eta : R),
    Physics.p_mag (Physics.set_eta s new_eta) = Physics.p_mag s.
Proof.
  intros s new_eta.
  unfold Physics.p_mag, G4.mag, G4.mag2, Physics.set_eta. cbn -[Physics._rotate].
  pose proof (rotate_norm (Physics.px s) (- Physics.pz s)
                (Physics._eta_to_theta new_eta
                 - Physics._eta_to_theta (Physics.BasicParticle_eta s))) as H.
  cbv zeta in H.
  set (r := Physics._rotate _ _ _) in *.
  f_equal. nra.
Qed.

(** In the half plane [py = 0], [pz < 0] the rotation of [set_eta] starts
    at the polar angle of the momentum and ends at that of [new_eta]. *)
Lemma set_eta_half_plane :
  forall (s : Physics.BasicParticle) (new_eta : R),
    Physics.py s = 0 -> Physics.pz s < 0 ->
    Physics.BasicParticle_eta (Physics.set_eta s new_eta) = new_eta.
Proof.
  intros s new_eta Hpy Hpz.
  assert (Ht : Physics.py s <> 0 \/ Physics.pz s <> 0) by (right; lra).
  pose proof (mag_pos (Physics.px s) _ _ Ht) as Hm.
  pose proof (longitudinal_fraction (Physics.px s) _ _ Ht) as Hu.
  pose proof (pT_is_transverse (Physics.px s) _ _ Ht) as HpT.
  fold (Physics.p_mag s) in Hm, Hu, HpT.
  set (m := Physics.p_mag s) in *.
  rewrite Hpy in HpT.
  replace (0 * 0 + Physics.pz s * Physics.pz s)
    with (- Physics.pz s * - Physics.pz s) in HpT by ring.
  rewrite sqrt_square in HpT by lra.
  assert (Heta : Physics.BasicParticle_eta s = atanh (Physics.px s / m))
    by (apply eta_of_mag; fold m; lra).
  set (theta0 := Physics._eta_to_theta (atanh (Physics.px s / m))).
  assert (Hx : Physics.px s = m * cos theta0).
  { unfold theta0. rewrite cos_eta_to_theta, tanh_atanh by assumption. field. lra. }
  assert (Hz : - Physics.pz s = m * sin theta0).
  { unfold theta0. rewrite sin_eta_to_theta. rewrite <- HpT. reflexivity. }
  assert (Hrot :
    Physics._rotate (Physics.px s) (- Physics.pz s)
      (Physics._eta_to_theta new_eta - Physics._eta_to_theta (Physics.BasicParticle_eta s))
    = (m * cos (Physics._eta_to_theta new_eta), m * sin (Physics._eta_to_theta new_eta))).
  { rewrite Heta. fold theta0.
    rewrite <- (rotate_polar m theta0 (Physics._eta_to_theta new_eta)).
    rewrite <- Hx, <- Hz. reflexivity. }
  rewrite eta_of_mag; rewrite set_eta_p_mag; fold m; [| lra].
  unfold Physics.set_eta. cbv zeta. rewrite Hrot. cbn.
  rewrite cos_eta_to_theta.
  replace (m * tanh new_eta / m) with (tanh new_eta) by (field; lra).
  apply atanh_tanh.
Qed.

(** What [set_eta] does deliver: it leaves [id] and [py] as they were and
    keeps the magnitude of the momentum, for every record and every
    [new_eta]; the pseudorapidity read back is [new_eta] for a record with
    [py = 0] and [pz < 0]. *)
Theorem set_eta_effect :
  forall (s : Physics.BasicParticle) (new_eta : R),
    Physics.id (Physics.set_eta s new_eta) = Physics.id s /\
    Physics.py (Physics.set_eta s new_eta) = Physics.py s /\
    Physics.p_mag (Physics.set_eta s new_eta) = Physics.p_mag s /\
    (Physics.py s = 0 -> Physics.pz s < 0 ->
     Physics.BasicParticle_eta (Physics.set_eta s new_eta) = new_eta).
Proof.
  intros s new_eta.
  split; [reflexivity | split; [reflexivity | split]].
  - apply set_eta_p_mag.
  - apply set_eta_half_plane.
Qed.

(** The record (3, 0, -4) sent to pseudorapidity 5. *)
Lemma set_eta_effect_witness :
  Physics.BasicParticle_eta (Physics.set_eta (Physics.mkBasic 13 3 0 (-4)) 5) = 5.
Proof.
  destruct (set_eta_effect (Physics.mkBasic 13 3 0 (-4)) 5) as (_ & _ & _ & H).
  apply H; cbn; lra.
Defined.

(** The record (0, 1, 0) has no momentum in the plane that [set_eta]
    rotates, so [set_eta(1)] leaves it where it is and its pseudorapidity
    stays 0. *)
Lemma set_eta_counterexample :
  Physics.BasicParticle_eta (Physics.set_eta (Physics.mkBasic 13 0 1 0) 1) <> 1.
Proof.
  rewrite eta_without_px.
  - lra.
  - cbn. ring.
Qed.

(** ** [set_phi] *)

Lemma atan2_origin : atan2 0 0 = 0.
Proof.
  unfold atan2.
  destruct (Rlt_dec 0 0); [lra |]. destruct (Rlt_dec 0 0); [lra | reflexivity].
Qed.

(** [atan2] of a point at angle [a] has the sine and cosine of [a]. *)
Lemma atan2_direction :
  forall r a : R, 0 < r ->
    cos (atan2 (r * sin a) (r * cos a)) = cos a /\
    sin (atan2 (r * sin a) (r * cos a)) = sin a.
Proof.
  intros r a Hr.
  assert (Hsq : r * cos a * (r * cos a) + r * sin a * (r * sin a) = r * r).
  { pose proof (sin2_cos2 a) as H. unfold Rsqr in H.
    replace (r * cos a * (r * cos a) + r * sin a * (r * sin a))
      with (r * r * (sin a * sin a + cos a * cos a)) by ring.
    rewrite H. ring. }
  destruct (atan2_polar_form (r * cos a) (r * sin a)) as [Hc Hs].
  { rewrite Hsq. nra. }
  rewrite Hsq, sqrt_square in Hc, Hs by lra.
  split; apply Rmult_eq_reg_l with r; lra.
Qed.

Lemma set_phi_p_mag :
  forall (s : Physics.BasicParticle) (new_phi : R),
    Physics.p_mag (Physics.set_phi s new_phi) = Physics.p_mag s.
Proof.
  intros s new_phi.
  unfold Physics.p_mag, G4.mag, G4.mag2, Physics.set_phi. cbn -[Physics._rotate].
  pose proof (rotate_norm (- Physics.pz s) (Physics.py s)
                (new_phi - Physics.BasicParticle_phi s)) as H.
  cbv zeta in H.
  set (r := Physics._rotate _ _ _) in *.
  f_equal. nra.
Qed.

(** With transverse momentum, the azimuth read back after [set_phi] is the
    [atan2] of the point at angle [new_phi]. *)
Lemma set_phi_transverse :
  forall (s : Physics.BasicParticle) (new_phi : R),
    Physics.py s <> 0 \/ Physics.pz s <> 0 ->
    exists r : R, 0 < r /\
      Physics.BasicParticle_phi (Physics.set_phi s new_phi)
        = atan2 (r * sin new_phi) (r * cos new_phi).
Proof.
  intros s new_phi Ht.
  pose proof (transverse_pos _ _ Ht) as Hpos.
  exists (sqrt (- Physics.pz s * - Physics.pz s + Physics.py s * Physics.py s)).
  assert (Hrad : 0 < - Physics.pz s * - Physics.pz s + Physics.py s * Physics.py s) by nra.
  split; [now apply sqrt_lt_R0 |].
  destruct (atan2_polar_form (- Physics.pz s) (Physics.py s) Hrad) as [Hc Hs].
  fold (Physics.BasicParticle_phi s) in Hc, Hs.
  set (r := sqrt _) in *.
  assert (Hrot :
    Physics._rotate (- Physics.pz s) (Physics.py s) (new_phi - Physics.BasicParticle_phi s)
    = (r * cos new_phi, r * sin new_phi)).
  { rewrite <- (rotate_polar r (Physics.BasicParticle_phi s) new_phi).
    rewrite Hc, Hs. reflexivity. }
  unfold Physics.BasicParticle_phi at 1. unfold Physics.set_phi. cbv zeta.
  cbn [Physics.py Physics.pz]. rewrite Hrot. cbn [fst snd].
  rewrite Ropp_involutive. reflexivity.
Qed.

(** C5, as the code has it: [set_phi] leaves [id] and [px] as they were and
    keeps the magnitude of the momentum, for every record and every
    [new_phi]; for a record with [py <> 0] or [pz <> 0] the azimuth read
    back lies in (-PI, PI], has the sine and cosine of [new_phi], and is
    [new_phi] itself when [new_phi] lies in (-PI, PI]. *)
Theorem set_phi_effect :
  forall (s : Physics.BasicParticle) (new_phi : R),
    Physics.id (Physics.set_phi s new_phi) = Physics.id s /\
    Physics.px (Physics.set_phi s new_phi) = Physics.px s /\
    Physics.p_mag (Physics.set_phi s new_phi) = Physics.p_mag s /\
    (Physics.py s <> 0 \/ Physics.pz s <> 0 ->
     let phi' := Physics.BasicParticle_phi (Physics.set_phi s new_phi) in
     - PI < phi' <= PI /\
     cos phi' = cos new_phi /\ sin phi' = sin new_phi /\
     (- PI < new_phi <= PI -> phi' = new_phi)).
Proof.
  intros s new_phi.
  split; [reflexivity | split; [reflexivity | split]].
  - apply set_phi_p_mag.
  - intros Ht phi'.
    destruct (set_phi_transverse s new_phi Ht) as (r & Hr & Hphi).
    unfold phi'. rewrite Hphi.
    destruct (atan2_direction r new_phi Hr) as [Hc Hs].
    repeat split; try assumption; try apply atan2_bound.
    intros Hrange. now apply atan2_of_polar.
Qed.

(** The record (3, 4, 0), at azimuth PI / 2, sent to azimuth 1. *)
Lemma set_phi_effect_witness :
  Physics.BasicParticle_phi (Physics.set_phi (Physics.mkBasic 13 3 4 0) 1) = 1.
Proof.
  destruct (set_phi_effect (Physics.mkBasic 13 3 4 0) 1) as (_ & _ & _ & H).
  destruct H as (_ & _ & _ & Heq).
  - left; cbn; lra.
  - apply Heq. pose proof PI_RGT_0. pose proof PI2_1. lra.
Defined.

(** On the longitudinal axis there is nothing for [set_phi] to rotate:
    the record it returns does not depend on [new_phi]. *)
Lemma set_phi_on_axis :
  forall (s : Physics.BasicParticle) (new_phi : R),
    Physics.py s = 0 -> Physics.pz s = 0 ->
    Physics.set_phi s new_phi = Physics.mkBasic (Physics.id s) (Physics.px s) 0 0.
Proof.
  intros s new_phi Hpy Hpz.
  unfold Physics.set_phi, Physics._rotate. cbn. rewrite Hpy, Hpz.
  f_equal; ring.
Qed.

(** C5 as stated fails: the record (1, 0, 0) lies on the axis, [set_phi(1)]
    returns it unchanged, and the azimuth it reads back is [atan2(0, 0)]. *)
Lemma set_phi_counterexample :
  Physics.BasicParticle_phi (Physics.set_phi (Physics.mkBasic 13 1 0 0) 1) <> 1.
Proof.
  rewrite set_phi_on_axis by reflexivity.
  unfold Physics.BasicParticle_phi; cbn.
  rewrite Ropp_0, atan2_origin. lra.
Qed.

(** ** Magnitude and direction *)

Lemma mag2_nonneg : forall v : G4.G4ThreeVector, 0 <= G4.mag2 v.
Proof.
  intros v. unfold G4.mag2. nra.
Qed.

Lemma mag_nonneg : forall v : G4.G4ThreeVector, 0 <= G4.mag v.
Proof.
  intros v. apply sqrt_pos.
Qed.

Lemma mag_nonzero_mag2 : forall v : G4.G4ThreeVector, G4.mag v <> 0 -> 0 < G4.mag2 v.
Proof.
  intros v Hm.
  destruct (mag2_nonneg v) as [H | H]; [assumption |].
  exfalso. apply Hm. unfold G4.mag. rewrite <- H. apply sqrt_0.
Qed.

Lemma mag_scale :
  forall (a : R) (v : G4.G4ThreeVector), G4.mag (G4.scale a v) = Rabs a * G4.mag v.
Proof.
  intros a v. unfold G4.mag.
  replace (G4.mag2 (G4.scale a v)) with (Rsqr a * G4.mag2 v)
    by (unfold G4.mag2, G4.scale, Rsqr; cbn; ring).
  rewrite sqrt_mult by (apply Rle_0_sqr || apply mag2_nonneg).
  rewrite sqrt_Rsqr_abs. reflexivity.
Qed.

Lemma mag_unit : forall v : G4.G4ThreeVector, G4.mag v <> 0 -> G4.mag (G4.unit v) = 1.
Proof.
  intros v Hm.
  pose proof (mag_nonzero_mag2 v Hm) as H2.
  assert (Hs : 0 < sqrt (G4.mag2 v)) by now apply sqrt_lt_R0.
  unfold G4.unit. destruct (Rlt_dec 0 (G4.mag2 v)) as [_ | Hn]; [| contradiction].
  rewrite mag_scale. unfold G4.mag.
  rewrite Rabs_pos_eq.
  - field. lra.
  - apply Rlt_le. apply Rdiv_lt_0_compat; lra.
Qed.

(** The unit vector of the zero vector is the zero vector. *)
Lemma unit_zero : G4.unit G4.zero = G4.zero.
Proof.
  unfold G4.unit.
  destruct (Rlt_dec 0 (G4.mag2 G4.zero)) as [H | _]; [| reflexivity].
  unfold G4.mag2 in H; cbn in H. lra.
Qed.

(** ** [set_p_unit] *)

(** C9: after [set_p_unit(new_p_unit)] the momentum is the unit vector of
    [new_p_unit] times the magnitude the record had, or times 1 when that
    magnitude was zero; [id] is as it was, and for a direction of nonzero
    length the new magnitude is that factor. *)
Theorem set_p_unit_spec :
  forall (s : Physics.BasicParticle) (new_p_unit : G4.G4ThreeVector),
    let factor := if Req_dec_T (Physics.p_mag s) 0 then 1 else Physics.p_mag s in
    Physics.p (Physics.set_p_unit s new_p_unit) = G4.scale factor (G4.unit new_p_unit) /\
    Physics.id (Physics.set_p_unit s new_p_unit) = Physics.id s /\
    (G4.mag new_p_unit <> 0 -> Physics.p_mag (Physics.set_p_unit s new_p_unit) = factor).
Proof.
  intros s d factor.
  split; [reflexivity | split; [reflexivity |]].
  intros Hd.
  change (Physics.p_mag (Physics.set_p_unit s d))
    with (G4.mag (G4.scale factor (G4.unit d))).
  rewrite mag_scale, mag_unit by assumption.
  rewrite Rabs_pos_eq; [ring |].
  unfold factor. destruct (Req_dec_T (Physics.p_mag s) 0); [lra |].
  apply mag_nonneg.
Qed.

(** A record at rest pointed along (0, 3, 4) gets momentum (0, 3/5, 4/5),
    of magnitude 1. *)
Lemma set_p_unit_spec_witness :
  Physics.p_mag (Physics.set_p_unit (Physics.mkBasic 13 0 0 0) (G4.mkVec 0 3 4)) = 1.
Proof.
  destruct (set_p_unit_spec (Physics.mkBasic 13 0 0 0) (G4.mkVec 0 3 4)) as (_ & _ & H).
  assert (Hz : Physics.p_mag (Physics.mkBasic 13 0 0 0) = 0) by exact mag_zero.
  rewrite H.
  - destruct (Req_dec_T _ 0) as [_ | Hn]; [reflexivity | contradiction].
  - unfold G4.mag, G4.mag2; cbn.
    replace (0 * 0 + 3 * 3 + 4 * 4) with (5 * 5) by ring.
    rewrite sqrt_square; lra.
Defined.

Lemma set_p_unit3_eq :
  forall (s : Physics.BasicParticle) (pu_x pu_y pu_z : R),
    Physics.set_p_unit3 s pu_x pu_y pu_z = Physics.set_p_unit s (G4.mkVec pu_x pu_y pu_z).
Proof.
  reflexivity.
Qed.

(** ** Kinetic energy *)

(** Rescaling the unit vector of a moving record gives the new magnitude. *)
Lemma p_mag_rescaled :
  forall (s : Physics.BasicParticle) (c : R),
    Physics.p_mag s <> 0 -> 0 <= c ->
    Physics.p_mag (Physics.set_p s (G4.scale c (Physics.p_unit s))) = c.
Proof.
  intros s c Hm Hc.
  change (Physics.p_mag (Physics.set_p s (G4.scale c (Physics.p_unit s))))
    with (G4.mag (G4.scale c (G4.unit (Physics.p s)))).
  rewrite mag_scale, mag_unit by exact Hm.
  rewrite Rabs_pos_eq by assumption. ring.
Qed.

(** [hypot] of the momentum that [set_ke] computes and the mass. *)
Lemma hypot_ke :
  forall k m : R, 0 <= k -> 0 <= m -> hypot (sqrt (k * (k + 2 * m))) m = k + m.
Proof.
  intros k m Hk Hm. unfold hypot.
  rewrite sqrt_sqrt by nra.
  replace (k * (k + 2 * m) + m * m) with ((k + m) * (k + m)) by ring.
  apply sqrt_square. lra.
Qed.

(** C6, as the code has it: for a record with nonzero momentum whose mass
    [m >= 0] the lookup returns, and for [k >= 0], [set_ke(k)] returns the
    record whose momentum is [sqrt (k (k + 2 m))] times the current unit
    direction, and [ke()] read from that record returns [k]. *)
Theorem set_ke_inverse :
  forall (table : G4.G4ParticleTable) (s : Physics.BasicParticle) (k m : R),
    (forall log : list Z, Lookup.value (Physics.mass table s) log = Some m) ->
    0 <= m -> 0 <= k -> Physics.p_mag s <> 0 ->
    forall log : list Z,
      Lookup.value (Physics.set_ke table s k) log
        = Some (Physics.set_p s (G4.scale (sqrt (k * (k + 2 * m))) (Physics.p_unit s))) /\
      Lookup.value (s' <- Physics.set_ke table s k ;; Physics.ke table s') log = Some k.
Proof.
  intros table s k m Hmass Hm Hk Hp log.
  set (s' := Physics.set_p s (G4.scale (sqrt (k * (k + 2 * m))) (Physics.p_unit s))).
  assert (Hmass' : forall l, Lookup.value (Physics.mass table s') l = Some m)
    by exact Hmass.
  assert (Hmag : Physics.p_mag s' = sqrt (k * (k + 2 * m))).
  { apply p_mag_rescaled; [assumption | apply sqrt_pos]. }
  unfold Lookup.value, Physics.set_ke, Physics.ke, Physics.e, Lookup.bind, Lookup.ret in *.
  pose proof (Hmass log) as H1.
  destruct (Physics.mass table s log) as [o1 l1]. cbn in H1. subst o1.
  fold s'. split; [reflexivity |].
  pose proof (Hmass' l1) as H2.
  destruct (Physics.mass table s' l1) as [o2 l2]. cbn in H2. subst o2.
  pose proof (Hmass' l2) as H3.
  destruct (Physics.mass table s' l2) as [o3 l3]. cbn in H3. subst o3.
  cbn. rewrite Hmag, hypot_ke by assumption.
  f_equal. ring.
Qed.

(** A muon of momentum (3, 4, 0) set to kinetic energy 100. *)
Lemma set_ke_inverse_witness :
  Lookup.value
    (s' <- Physics.set_ke Examples.muon_only (Physics.mkBasic 13 3 4 0) 100 ;;
     Physics.ke Examples.muon_only s') [] = Some 100.
Proof.
  refine (proj2 (set_ke_inverse Examples.muon_only (Physics.mkBasic 13 3 4 0) 100
                   105 _ _ _ _ [])).
  - intros log. apply muon_mass_lookup.
  - lra.
  - lra.
  - unfold Physics.p_mag, G4.mag, G4.mag2; cbn.
    replace (3 * 3 + 4 * 4 + 0 * 0) with (5 * 5) by ring.
    rewrite sqrt_square; lra.
Defined.

(** A record at rest has the zero vector as unit direction: [set_ke]
    leaves it at rest and [ke()] returns 0, whatever [new_ke] is. *)
Lemma set_ke_at_rest :
  forall new_ke : R,
    Lookup.value
      (s' <- Physics.set_ke Examples.muon_only (Physics.mkBasic 0 0 0 0) new_ke ;;
       Physics.ke Examples.muon_only s') [] = Some 0.
Proof.
  intros new_ke.
  unfold Lookup.value, Physics.set_ke, Physics.ke, Physics.e, Lookup.bind, Lookup.ret.
  cbn. f_equal.
  change (Physics.p_unit (Physics.mkBasic 0 0 0 0)) with (G4.unit G4.zero).
  rewrite unit_zero. unfold Physics.p_mag, G4.mag, G4.mag2, hypot, Physics.set_p; cbn.
  set (c := sqrt (new_ke * (new_ke + 2 * 0))).
  replace (c * 0 * (c * 0) + c * 0 * (c * 0) + c * 0 * (c * 0)) with 0 by ring.
  rewrite sqrt_0.
  replace (0 * 0 + 0 * 0) with 0 by ring.
  rewrite sqrt_0. ring.
Qed.

(** C6 as stated fails: for the record at rest with [id = 0], [set_ke(1)]
    followed by [ke()] returns 0, not 1. *)
Lemma set_ke_counterexample :
  Lookup.value
    (s' <- Physics.set_ke Examples.muon_only (Physics.mkBasic 0 0 0 0) 1 ;;
     Physics.ke Examples.muon_only s') [] <> Some 1.
Proof.
  rewrite set_ke_at_rest. intros H. injection H. lra.
Qed.

(** ** The exact reading and binary64

    The round trip of [Convert] needs [|x| < |v|].  On doubles a small
    transverse part is absorbed when the magnitude is rounded: for
    v = (2^30, 2^-30, 0) the magnitude is 2^30, [x / magnitude] is 1,
    [atanh] returns infinity, [pT] is 0 and the x component that comes
    back is [0 * infinity]. *)
Lemma IEEE_round_trip_near_axis :
  forall L : IEEE.libm, IEEE.annex_F L ->
    let v := IEEE.mkVec 0x1p+30 0x1p-30 0 in
    PrimFloat.is_nan (IEEE.x (IEEE.Convert_triplet L (IEEE.Convert_momentum L v))) = true.
Proof.
  intros L HF v.
  unfold IEEE.Convert_momentum.
  replace (IEEE.mag v) with 0x1p+30%float by (vm_compute; reflexivity).
  cbv zeta.
  replace (PrimFloat.eqb 0x1p+30 0) with false by (vm_compute; reflexivity).
  replace (PrimFloat.div (IEEE.x v) 0x1p+30) with 1%float by (vm_compute; reflexivity).
  unfold IEEE.Convert_triplet; cbn.
  rewrite (IEEE.atanh_one L HF), (IEEE.cosh_inf L HF), (IEEE.sinh_inf L HF).
  vm_compute. reflexivity.
Qed.

(** * Further properties *)

(** ** From a triplet to a vector and back *)

Lemma cosh_sinh_sq : forall a : R, cosh a * cosh a - sinh a * sinh a = 1.
Proof.
  intros a. unfold cosh, sinh.
  pose proof (exp_opp_inv a) as H.
  replace ((exp a + exp (- a)) / 2 * ((exp a + exp (- a)) / 2) -
           (exp a - exp (- a)) / 2 * ((exp a - exp (- a)) / 2))
    with (exp a * exp (- a)) by field.
  exact H.
Qed.

Lemma mag_Convert_triplet :
  forall t : Physics.PseudoLorentzTriplet,
    G4.mag (Physics.Convert_triplet t) = Rabs (Physics.pT t) * cosh (Physics.eta t).
Proof.
  intros [a h f]. unfold G4.mag, G4.mag2, Physics.Convert_triplet; cbn.
  pose proof (cosh_sinh_sq h) as Hh.
  pose proof (sin2_cos2 f) as Hf. unfold Rsqr in Hf.
  pose proof (cosh_pos h) as Hc.
  replace (a * sinh h * (a * sinh h) + a * sin f * (a * sin f) + - a * cos f * (- a * cos f))
    with (Rsqr a * (cosh h * cosh h)).
  - rewrite sqrt_mult by (apply Rle_0_sqr || nra).
    rewrite sqrt_Rsqr_abs, sqrt_square by lra. reflexivity.
  - unfold Rsqr.
    replace (cosh h * cosh h) with (sinh h * sinh h + (sin f * sin f + cos f * cos f)) by lra.
    ring.
Qed.

(** The vector of a triplet with [pT > 0] and [phi] in (-PI, PI]
    converts back to that triplet. *)
Lemma Convert_triplet_inverse :
  forall a h f : R,
    0 < a -> - PI < f <= PI ->
    Physics.Convert_momentum (Physics.Convert_triplet (Physics.mkPLT a h f))
      = Physics.mkPLT a h f.
Proof.
  intros a h f Ha Hf.
  pose proof (mag_Convert_triplet (Physics.mkPLT a h f)) as Hm.
  cbn [Physics.pT Physics.eta] in Hm. rewrite Rabs_pos_eq in Hm by lra.
  pose proof (cosh_pos h) as Hc.
  unfold Physics.Convert_momentum. rewrite Hm. cbv zeta.
  destruct (Req_dec_T (a * cosh h) 0) as [E | _]; [nra |].
  cbn.
  replace (a * sinh h / (a * cosh h)) with (tanh h) by (unfold tanh; field; lra).
  rewrite atanh_tanh, Ropp_mult_distr_l_reverse, Ropp_involutive.
  rewrite atan2_of_polar by assumption.
  f_equal. field. lra.
Qed.

(** X1: a triplet with [pT > 0] and [phi] in (-PI, PI] is read back
    unchanged from the vector that [Convert] makes of it. *)
Theorem triplet_round_trip :
  forall t : Physics.PseudoLorentzTriplet,
    0 < Physics.pT t -> - PI < Physics.phi t <= PI ->
    Physics.Convert_momentum (Physics.Convert_triplet t) = t.
Proof.
  intros [a h f] Ha Hf. cbn in Ha, Hf.
  now apply Convert_triplet_inverse.
Qed.

Lemma triplet_round_trip_witness :
  Physics.Convert_momentum (Physics.Convert_triplet (Physics.mkPLT 4 1 0))
    = Physics.mkPLT 4 1 0.
Proof.
  apply (triplet_round_trip (Physics.mkPLT 4 1 0)); cbn.
  - lra.
  - pose proof PI_RGT_0. lra.
Defined.

Lemma sinh_opp : forall a : R, sinh (- a) = - sinh a.
Proof.
  intros a. unfold sinh. rewrite Ropp_involutive. field.
Qed.

Lemma cosh_ge_1 : forall a : R, 1 <= cosh a.
Proof.
  intros a. pose proof (cosh_sinh_sq a). pose proof (cosh_pos a). nra.
Qed.

(** X2: the sign of [pT] does not survive the round trip.  A triplet
    [{-a, eta, phi}] with [a > 0] makes the opposite vector of
    [{a, eta, phi}]; for [phi] strictly inside (-PI, PI) and other than 0,
    so that the transverse component [y = -a sin phi] is not a zero, it is
    read back as [{a, -eta, phi -+ PI}].  (At [phi = 0] the component [y]
    is a zero whose sign decides between PI and -PI.) *)
Theorem negative_pT_round_trip :
  forall a h f : R,
    0 < a -> - PI < f < PI -> f <> 0 ->
    Physics.Convert_triplet (Physics.mkPLT (- a) h f)
      = G4.scale (-1) (Physics.Convert_triplet (Physics.mkPLT a h f)) /\
    Physics.Convert_momentum (Physics.Convert_triplet (Physics.mkPLT (- a) h f))
      = Physics.mkPLT a (- h) (if Rlt_dec 0 f then f - PI else f + PI).
Proof.
  intros a h f Ha Hf Hf0.
  split.
  - unfold Physics.Convert_triplet, G4.scale; cbn. f_equal; ring.
  - set (f' := if Rlt_dec 0 f then f - PI else f + PI).
    assert (Hf' : - PI < f' <= PI) by (unfold f'; destruct (Rlt_dec 0 f); lra).
    assert (Hs : sin f' = - sin f).
    { unfold f'. destruct (Rlt_dec 0 f).
      - replace (f - PI) with (- (PI - f)) by ring.
        rewrite sin_neg, sin_pi_minus. reflexivity.
      - apply neg_sin. }
    assert (Hc : cos f' = - cos f).
    { unfold f'. destruct (Rlt_dec 0 f).
      - replace (f - PI) with (- (PI - f)) by ring.
        rewrite cos_neg, cos_pi_minus. reflexivity.
      - apply neg_cos. }
    rewrite <- (Convert_triplet_inverse a (- h) f' Ha Hf').
    f_equal. unfold Physics.Convert_triplet; cbn.
    rewrite sinh_opp, Hs, Hc. f_equal; ring.
Qed.

Lemma negative_pT_round_trip_witness :
  Physics.Convert_momentum (Physics.Convert_triplet (Physics.mkPLT (- (4)) 1 1))
    = Physics.mkPLT 4 (- (1)) (1 - PI).
Proof.
  pose proof PI_RGT_0 as Hpi. pose proof PI2_1 as Hp1.
  destruct (negative_pT_round_trip 4 1 1) as [_ H]; [lra | lra | lra |].
  rewrite H. destruct (Rlt_dec 0 1) as [_ | Hn]; [reflexivity | lra].
Defined.

(** X3: the vector of a triplet has magnitude [|pT| cosh eta], at least
    [|pT|]; with [pT = 0] it is the zero vector whatever [eta] and [phi]
    are, and converts back to [{0, 0, 0}]. *)
Theorem Convert_triplet_magnitude :
  forall t : Physics.PseudoLorentzTriplet,
    G4.mag (Physics.Convert_triplet t) = Rabs (Physics.pT t) * cosh (Physics.eta t) /\
    Rabs (Physics.pT t) <= G4.mag (Physics.Convert_triplet t) /\
    (Physics.pT t = 0 ->
     Physics.Convert_triplet t = G4.zero /\
     Physics.Convert_momentum (Physics.Convert_triplet t) = Physics.mkPLT 0 0 0).
Proof.
  intros t. rewrite mag_Convert_triplet.
  pose proof (cosh_ge_1 (Physics.eta t)) as Hc.
  pose proof (Rabs_pos (Physics.pT t)) as Ha.
  split; [reflexivity | split; [nra |]].
  intros H0.
  assert (Hz : Physics.Convert_triplet t = G4.zero).
  { unfold Physics.Convert_triplet, G4.zero. rewrite H0. f_equal; ring. }
  split; [exact Hz |].
  rewrite Hz. unfold Physics.Convert_momentum. rewrite mag_zero.
  destruct (Req_dec_T 0 0) as [_ | Hne]; [reflexivity | now elim Hne].
Qed.

Lemma Convert_triplet_magnitude_witness :
  Physics.Convert_momentum (Physics.Convert_triplet (Physics.mkPLT 0 5 1))
    = Physics.mkPLT 0 0 0.
Proof.
  destruct (Convert_triplet_magnitude (Physics.mkPLT 0 5 1)) as (_ & _ & H).
  destruct H as [_ H]; [reflexivity | exact H].
Defined.

(** ** [set_pseudo_lorentz_triplet] and [set_pT] *)

Lemma getters_of_triplet :
  forall (s : Physics.BasicParticle) (t : Physics.PseudoLorentzTriplet),
    Physics.pseudo_lorentz_triplet s = t -> Physics.p_mag s <> 0 ->
    Physics.BasicParticle_pT s = Physics.pT t /\
    Physics.BasicParticle_eta s = Physics.eta t /\
    Physics.BasicParticle_phi s = Physics.phi t.
Proof.
  intros s t Ht Hm.
  destruct (getters_agree_exact s) as (H1 & H2 & H3).
  rewrite H1, H2, (H3 Hm), Ht. repeat split.
Qed.

Lemma set_triplet_inverse :
  forall (s : Physics.BasicParticle) (a h f : R),
    0 < a -> - PI < f <= PI ->
    Physics.pseudo_lorentz_triplet
      (Physics.set_pseudo_lorentz_triplet s (Physics.mkPLT a h f)) = Physics.mkPLT a h f /\
    Physics.p_mag (Physics.set_pseudo_lorentz_triplet s (Physics.mkPLT a h f)) = a * cosh h.
Proof.
  intros s a h f Ha Hf. split.
  - exact (Convert_triplet_inverse a h f Ha Hf).
  - pose proof (mag_Convert_triplet (Physics.mkPLT a h f)) as Hm.
    cbn [Physics.pT Physics.eta] in Hm. rewrite Rabs_pos_eq in Hm by lra.
    exact Hm.
Qed.

(** X4: after [set_pseudo_lorentz_triplet(pT, eta, phi)] with [pT > 0] and
    [phi] in (-PI, PI], the getters [pT()], [eta()] and [phi()] return the
    three arguments, the magnitude is [pT cosh eta], and [id] is as it was. *)
Theorem set_triplet_then_get :
  forall (s : Physics.BasicParticle) (new_pT new_eta new_phi : R),
    0 < new_pT -> - PI < new_phi <= PI ->
    let s' := Physics.set_pseudo_lorentz_triplet3 s new_pT new_eta new_phi in
    Physics.BasicParticle_pT s' = new_pT /\
    Physics.BasicParticle_eta s' = new_eta /\
    Physics.BasicParticle_phi s' = new_phi /\
    Physics.p_mag s' = new_pT * cosh new_eta /\
    Physics.id s' = Physics.id s.
Proof.
  intros s a h f Ha Hf s'.
  destruct (set_triplet_inverse s a h f Ha Hf) as [Ht Hm].
  fold (Physics.set_pseudo_lorentz_triplet3 s a h f) in Ht, Hm. fold s' in Ht, Hm.
  pose proof (cosh_pos h) as Hc.
  destruct (getters_of_triplet s' _ Ht) as (H1 & H2 & H3); [rewrite Hm; nra |].
  repeat split; assumption.
Qed.

Lemma set_triplet_then_get_witness :
  Physics.BasicParticle_eta
    (Physics.set_pseudo_lorentz_triplet3 (Physics.mkBasic 13 0 0 0) 4 5 1) = 5.
Proof.
  pose proof PI_RGT_0 as Hpi. pose proof PI2_1 as Hp1.
  destruct (set_triplet_then_get (Physics.mkBasic 13 0 0 0) 4 5 1) as (_ & H & _);
    [lra | lra | exact H].
Defined.

(** X5: for a record with transverse momentum and [new_pT > 0],
    [set_pT(new_pT)] makes [pT()] return [new_pT] and leaves [eta()],
    [phi()] and [id] as they were.  (Without transverse momentum [eta()] is
    the guard's 0 or [atanh] at the end of its domain, which exact
    arithmetic does not describe.) *)
Theorem set_pT_effect :
  forall (s : Physics.BasicParticle) (new_pT : R),
    Physics.py s <> 0 \/ Physics.pz s <> 0 -> 0 < new_pT ->
    Physics.BasicParticle_pT (Physics.set_pT s new_pT) = new_pT /\
    Physics.BasicParticle_eta (Physics.set_pT s new_pT) = Physics.BasicParticle_eta s /\
    Physics.BasicParticle_phi (Physics.set_pT s new_pT) = Physics.BasicParticle_phi s /\
    Physics.id (Physics.set_pT s new_pT) = Physics.id s.
Proof.
  intros s a _ Ha.
  assert (Hf : - PI < Physics.BasicParticle_phi s <= PI) by apply atan2_bound.
  destruct (set_triplet_inverse s a (Physics.BasicParticle_eta s)
              (Physics.BasicParticle_phi s) Ha Hf) as [Ht Hm].
  fold (Physics.set_pT s a) in Ht, Hm.
  pose proof (cosh_pos (Physics.BasicParticle_eta s)) as Hc.
  destruct (getters_of_triplet (Physics.set_pT s a) _ Ht) as (H1 & H2 & H3);
    [rewrite Hm; nra |].
  repeat split; assumption.
Qed.

Lemma set_pT_effect_witness :
  Physics.BasicParticle_pT (Physics.set_pT (Physics.mkBasic 13 3 4 0) 8) = 8.
Proof.
  destruct (set_pT_effect (Physics.mkBasic 13 3 4 0) 8) as (H & _);
    [left; cbn; lra | lra | exact H].
Defined.

(** ** Direction and magnitude setters *)

Lemma mag_zero_components :
  forall s : Physics.BasicParticle,
    Physics.p_mag s = 0 -> Physics.px s = 0 /\ Physics.py s = 0 /\ Physics.pz s = 0.
Proof.
  intros s Hm. unfold Physics.p_mag, G4.mag in Hm.
  apply sqrt_eq_0 in Hm; [| apply mag2_nonneg].
  unfold G4.mag2 in Hm; cbn in Hm.
  repeat split; nra.
Qed.

Lemma at_rest_is_zero :
  forall s : Physics.BasicParticle,
    Physics.p_mag s = 0 -> s = Physics.mkBasic (Physics.id s) 0 0 0.
Proof.
  intros s Hm. destruct (mag_zero_components s Hm) as (Hx & Hy & Hz).
  destruct s as [i a b c]; cbn in *. subst. reflexivity.
Qed.

Lemma unit_scale_pos :
  forall (c : R) (v : G4.G4ThreeVector),
    0 < c -> G4.mag v <> 0 -> G4.unit (G4.scale c v) = G4.unit v.
Proof.
  intros c v Hc Hv.
  pose proof (mag_nonzero_mag2 v Hv) as H2.
  assert (Hs : 0 < sqrt (G4.mag2 v)) by now apply sqrt_lt_R0.
  pose proof (mag_scale c v) as Hm. unfold G4.mag in Hm.
  rewrite Rabs_pos_eq in Hm by lra.
  assert (H2' : 0 < G4.mag2 (G4.scale c v)).
  { replace (G4.mag2 (G4.scale c v)) with (c * c * G4.mag2 v)
      by (unfold G4.mag2, G4.scale; cbn; ring).
    apply Rmult_lt_0_compat; nra. }
  unfold G4.unit.
  destruct (Rlt_dec 0 (G4.mag2 (G4.scale c v))) as [_ | Hn]; [| contradiction].
  destruct (Rlt_dec 0 (G4.mag2 v)) as [_ | Hn]; [| contradiction].
  rewrite Hm. unfold G4.scale; cbn. f_equal; field; lra.
Qed.

Lemma unit_scale_neg :
  forall (c : R) (v : G4.G4ThreeVector),
    c < 0 -> G4.mag v <> 0 -> G4.unit (G4.scale c v) = G4.scale (-1) (G4.unit v).
Proof.
  intros c v Hc Hv.
  pose proof (mag_nonzero_mag2 v Hv) as H2.
  assert (Hs : 0 < sqrt (G4.mag2 v)) by now apply sqrt_lt_R0.
  pose proof (mag_scale c v) as Hm. unfold G4.mag in Hm.
  rewrite Rabs_left in Hm by lra.
  assert (H2' : 0 < G4.mag2 (G4.scale c v)).
  { replace (G4.mag2 (G4.scale c v)) with (c * c * G4.mag2 v)
      by (unfold G4.mag2, G4.scale; cbn; ring).
    apply Rmult_lt_0_compat; nra. }
  unfold G4.unit.
  destruct (Rlt_dec 0 (G4.mag2 (G4.scale c v))) as [_ | Hn]; [| contradiction].
  destruct (Rlt_dec 0 (G4.mag2 v)) as [_ | Hn]; [| contradiction].
  rewrite Hm. unfold G4.scale; cbn. f_equal; field; lra.
Qed.

Lemma unit_unit :
  forall v : G4.G4ThreeVector, G4.mag v <> 0 -> G4.unit (G4.unit v) = G4.unit v.
Proof.
  intros v Hv.
  pose proof (mag_nonzero_mag2 v Hv) as H2.
  assert (Hs : 0 < sqrt (G4.mag2 v)) by now apply sqrt_lt_R0.
  unfold G4.unit at 2.
  destruct (Rlt_dec 0 (G4.mag2 v)) as [_ | Hn]; [| contradiction].
  rewrite unit_scale_pos; [| apply Rdiv_lt_0_compat; lra | assumption].
  unfold G4.unit.
  destruct (Rlt_dec 0 (G4.mag2 v)) as [_ | Hn]; [reflexivity | contradiction].
Qed.

Lemma mag_unit_nonzero :
  forall v : G4.G4ThreeVector, G4.mag v <> 0 -> G4.mag (G4.unit v) <> 0.
Proof.
  intros v Hv. rewrite mag_unit by assumption. lra.
Qed.

(** X6: on a record with nonzero momentum, [set_p_mag(a)] gives momentum of
    magnitude [|a|]; the unit direction is kept for [a > 0] and reversed
    for [a < 0]; [id] is as it was. *)
Theorem set_p_mag_effect :
  forall (s : Physics.BasicParticle) (a : R),
    Physics.p_mag s <> 0 ->
    Physics.p_mag (Physics.set_p_mag s a) = Rabs a /\
    (0 < a -> Physics.p_unit (Physics.set_p_mag s a) = Physics.p_unit s) /\
    (a < 0 -> Physics.p_unit (Physics.set_p_mag s a) = G4.scale (-1) (Physics.p_unit s)) /\
    Physics.id (Physics.set_p_mag s a) = Physics.id s.
Proof.
  intros s a Hm.
  change (Physics.p_mag s) with (G4.mag (Physics.p s)) in Hm.
  change (Physics.p_mag (Physics.set_p_mag s a))
    with (G4.mag (G4.scale a (G4.unit (Physics.p s)))).
  change (Physics.p_unit (Physics.set_p_mag s a))
    with (G4.unit (G4.scale a (G4.unit (Physics.p s)))).
  change (Physics.p_unit s) with (G4.unit (Physics.p s)).
  pose proof (mag_unit_nonzero _ Hm) as Hu.
  split; [| split; [| split]].
  - rewrite mag_scale, mag_unit by assumption. ring.
  - intros Ha. rewrite unit_scale_pos, unit_unit by assumption. reflexivity.
  - intros Ha. rewrite unit_scale_neg, unit_unit by assumption. reflexivity.
  - reflexivity.
Qed.

Lemma set_p_mag_effect_witness :
  Physics.p_mag (Physics.set_p_mag (Physics.mkBasic 13 3 4 0) (- (2))) = Rabs (- (2)).
Proof.
  destruct (set_p_mag_effect (Physics.mkBasic 13 3 4 0) (- (2))) as (H & _).
  - unfold Physics.p_mag, G4.mag, G4.mag2; cbn.
    replace (3 * 3 + 4 * 4 + 0 * 0) with (5 * 5) by ring.
    rewrite sqrt_square; lra.
  - exact H.
Defined.

Lemma set_ke_value :
  forall (table : G4.G4ParticleTable) (s : Physics.BasicParticle) (k m : R) (log : list Z),
    Lookup.value (Physics.mass table s) log = Some m ->
    Lookup.value (Physics.set_ke table s k) log
      = Some (Physics.set_p s (G4.scale (sqrt (k * (k + 2 * m))) (Physics.p_unit s))).
Proof.
  intros table s k m log Hm.
  unfold Lookup.value, Physics.set_ke, Lookup.bind, Lookup.ret in *.
  destruct (Physics.mass table s log) as [o l]. cbn in Hm. subst o. reflexivity.
Qed.

Lemma scale_zero_vector : forall a : R, G4.scale a G4.zero = G4.zero.
Proof.
  intros a. unfold G4.scale, G4.zero; cbn. f_equal; ring.
Qed.

Lemma scale_by_zero : forall v : G4.G4ThreeVector, G4.scale 0 v = G4.zero.
Proof.
  intros v. unfold G4.scale, G4.zero. f_equal; ring.
Qed.

(** X7: rest is absorbing for the magnitude setters.  [set_p_mag(0)] and
    [set_ke(0)] bring any record to rest, and on a record at rest
    [set_p_mag(a)] returns the record as it is for every [a], and so does
    [set_ke(k)] for every [k] whose radicand [k (k + 2 m)] is not negative
    (a negative radicand is outside the domain of [std::sqrt]). *)
Theorem rest_is_absorbing :
  forall (table : G4.G4ParticleTable) (s : Physics.BasicParticle) (m : R) (log : list Z),
    Lookup.value (Physics.mass table s) log = Some m ->
    Physics.p (Physics.set_p_mag s 0) = G4.zero /\
    (exists s0, Lookup.value (Physics.set_ke table s 0) log = Some s0 /\
                Physics.p s0 = G4.zero) /\
    (Physics.p_mag s = 0 ->
     forall a k : R,
       Physics.set_p_mag s a = s /\
       (0 <= k * (k + 2 * m) ->
        Lookup.value (Physics.set_ke table s k) log = Some s)).
Proof.
  intros table s m log Hmass.
  split; [| split].
  - change (Physics.p (Physics.set_p_mag s 0)) with (G4.scale 0 (Physics.p_unit s)).
    apply scale_by_zero.
  - eexists. split; [apply (set_ke_value table s 0 m log Hmass) |].
    change (G4.scale (sqrt (0 * (0 + 2 * m))) (Physics.p_unit s) = G4.zero).
    rewrite Rmult_0_l, sqrt_0. apply scale_by_zero.
  - intros Hrest a k.
    pose proof (at_rest_is_zero s Hrest) as Hs.
    assert (Hu : Physics.p_unit s = G4.zero).
    { rewrite Hs. change (G4.unit G4.zero = G4.zero). apply unit_zero. }
    split.
    + unfold Physics.set_p_mag. rewrite Hu, scale_zero_vector. symmetry. exact Hs.
    + intros _. rewrite (set_ke_value table s k m log Hmass).
      rewrite Hu, scale_zero_vector. f_equal. symmetry. exact Hs.
Qed.

Lemma rest_is_absorbing_witness :
  Physics.set_p_mag (Physics.mkBasic 13 0 0 0) 7 = Physics.mkBasic 13 0 0 0.
Proof.
  destruct (rest_is_absorbing Examples.muon_only (Physics.mkBasic 13 0 0 0) 105 [])
    as (_ & _ & H).
  - apply muon_mass_lookup.
  - destruct (H mag_zero 7 1) as [H1 _]. exact H1.
Defined.

(** X8: for a direction of nonzero length the unit direction read back
    after [set_p_unit] is the unit vector of the argument; the zero vector
    as direction brings the record to rest. *)
Theorem set_p_unit_direction :
  forall (s : Physics.BasicParticle) (new_p_unit : G4.G4ThreeVector),
    (G4.mag new_p_unit <> 0 ->
     Physics.p_unit (Physics.set_p_unit s new_p_unit) = G4.unit new_p_unit) /\
    Physics.p (Physics.set_p_unit s G4.zero) = G4.zero.
Proof.
  intros s d. split.
  - intros Hd.
    change (Physics.p_unit (Physics.set_p_unit s d))
      with (G4.unit (G4.scale (if Req_dec_T (Physics.p_mag s) 0 then 1 else Physics.p_mag s)
                              (G4.unit d))).
    rewrite unit_scale_pos.
    + now apply unit_unit.
    + destruct (Req_dec_T (Physics.p_mag s) 0) as [_ | Hn]; [lra |].
      pose proof (mag_nonneg (Physics.p s)) as H.
      change (G4.mag (Physics.p s)) with (Physics.p_mag s) in H. lra.
    + now apply mag_unit_nonzero.
  - change (Physics.p (Physics.set_p_unit s G4.zero))
      with (G4.scale (if Req_dec_T (Physics.p_mag s) 0 then 1 else Physics.p_mag s)
                     (G4.unit G4.zero)).
    rewrite unit_zero. apply scale_zero_vector.
Qed.

Lemma set_p_unit_direction_witness :
  Physics.p_unit (Physics.set_p_unit (Physics.mkBasic 13 3 4 0) (G4.mkVec 0 0 2))
    = G4.unit (G4.mkVec 0 0 2).
Proof.
  destruct (set_p_unit_direction (Physics.mkBasic 13 3 4 0) (G4.mkVec 0 0 2)) as [H _].
  apply H.
  unfold G4.mag, G4.mag2; cbn.
  replace (0 * 0 + 0 * 0 + 2 * 2) with (2 * 2) by ring.
  rewrite sqrt_square; lra.
Defined.

(** ** Lookups that succeed, fail, or are skipped *)

Lemma property_run :
  forall (table : G4.G4ParticleTable) (Result Output : Type)
         (convert : Result -> option Output) (f : G4.G4ParticleDefinition -> Result)
         (default_value : Output) (id : Z) (log : list Z),
    Physics._get_particle_property table convert id (Physics.deref f) default_value log
    = if (id =? 0)%Z then (Some default_value, log)
      else (match table id with
            | Some d => convert (f d)
            | None => None
            end, log ++ [id]).
Proof.
  intros table Result Output convert f dv id log.
  unfold Physics._get_particle_property.
  destruct (id =? 0)%Z; [reflexivity |].
  unfold Lookup.bind, Physics._get_particle_def, Lookup.lift, Physics.deref.
  destruct (table id); reflexivity.
Qed.

Lemma mass_run :
  forall (table : G4.G4ParticleTable) (s : Physics.BasicParticle) (log : list Z),
    Physics.mass table s log
    = if (Physics.id s =? 0)%Z then (Some 0, log)
      else (match table (Physics.id s) with
            | Some d => Physics.through_int (G4.GetPDGMass d)
            | None => None
            end, log ++ [Physics.id s]).
Proof.
  intros table s log.
  unfold Physics.mass, Physics.GetParticleMass, Lookup.bind.
  rewrite property_run.
  destruct (Physics.id s =? 0)%Z; [reflexivity |].
  destruct (table (Physics.id s)) as [d |]; [| reflexivity].
  unfold Physics.through_int.
  destruct (Physics.double_to_int (G4.GetPDGMass d)); reflexivity.
Qed.

(** X9: an identifier other than 0 that the table does not know makes
    [mass()], [e()], [ke()] and [set_ke()] fail on the null definition,
    each after a single query for that identifier. *)
Theorem unknown_particle_faults :
  forall (table : G4.G4ParticleTable) (s : Physics.BasicParticle) (k : R) (log : list Z),
    Physics.id s <> 0%Z -> table (Physics.id s) = None ->
    Physics.mass table s log = (None, log ++ [Physics.id s]) /\
    Physics.e table s log = (None, log ++ [Physics.id s]) /\
    Physics.ke table s log = (None, log ++ [Physics.id s]) /\
    Physics.set_ke table s k log = (None, log ++ [Physics.id s]).
Proof.
  intros table s k log Hid Hnone.
  assert (Hm : Physics.mass table s log = (None, log ++ [Physics.id s])).
  { rewrite mass_run, Hnone.
    destruct (Z.eqb_spec (Physics.id s) 0); [contradiction | reflexivity]. }
  unfold Physics.ke, Physics.e, Physics.set_ke, Lookup.bind.
  rewrite Hm. repeat split.
Qed.

Lemma unknown_particle_faults_witness :
  Physics.ke Examples.muon_only (Physics.mkBasic 11 3 4 0) [] = (None, [11%Z]).
Proof.
  destruct (unknown_particle_faults Examples.muon_only (Physics.mkBasic 11 3 4 0) 0 [])
    as (_ & _ & H & _); [discriminate | reflexivity | exact H].
Defined.

Lemma hypot_0_r : forall a : R, 0 <= a -> hypot a 0 = a.
Proof.
  intros a Ha. unfold hypot.
  replace (a * a + 0 * 0) with (a * a) by ring.
  now apply sqrt_square.
Qed.

(** X10: a record with the sentinel [id = 0] is massless and never asks
    the table: [e()] and [ke()] return [p_mag()], and [set_ke(k)] installs
    [|k|] times the unit direction. *)
Theorem sentinel_is_massless :
  forall (table : G4.G4ParticleTable) (s : Physics.BasicParticle) (k : R) (log : list Z),
    Physics.id s = 0%Z ->
    Physics.e table s log = (Some (Physics.p_mag s), log) /\
    Physics.ke table s log = (Some (Physics.p_mag s), log) /\
    Physics.set_ke table s k log
      = (Some (Physics.set_p s (G4.scale (Rabs k) (Physics.p_unit s))), log).
Proof.
  intros table s k log Hid.
  assert (Hm : forall l, Physics.mass table s l = (Some 0, l)).
  { intros l. rewrite mass_run, Hid. reflexivity. }
  pose proof (mag_nonneg (Physics.p s)) as Hp.
  change (G4.mag (Physics.p s)) with (Physics.p_mag s) in Hp.
  unfold Physics.ke, Physics.e, Physics.set_ke, Lookup.bind, Lookup.ret.
  rewrite !Hm. rewrite hypot_0_r by assumption.
  repeat split.
  - f_equal. f_equal. ring.
  - f_equal. f_equal. f_equal. f_equal.
    replace (k * (k + 2 * 0)) with (Rsqr k) by (unfold Rsqr; ring).
    apply sqrt_Rsqr_abs.
Qed.

Lemma sentinel_is_massless_witness :
  Physics.ke Examples.muon_only (Physics.mkBasic 0 3 4 0) []
    = (Some (Physics.p_mag (Physics.mkBasic 0 3 4 0)), []).
Proof.
  destruct (sentinel_is_massless Examples.muon_only (Physics.mkBasic 0 3 4 0) 0 [])
    as (_ & H & _); [reflexivity | exact H].
Defined.

(** ** Energy *)

(** X11: for a record whose mass [m >= 0] the lookup returns, [e()] is
    [E] with [E^2 = p_mag()^2 + m^2] and [E >= m], [E >= p_mag()]; [ke()] is
    [E - m], lies between 0 and [p_mag()], and is 0 exactly at rest. *)
Theorem energy_relations :
  forall (table : G4.G4ParticleTable) (s : Physics.BasicParticle) (m : R),
    (forall log : list Z, Lookup.value (Physics.mass table s) log = Some m) ->
    0 <= m ->
    forall log : list Z,
    exists E K : R,
      Lookup.value (Physics.e table s) log = Some E /\
      Lookup.value (Physics.ke table s) log = Some K /\
      K = E - m /\
      E * E = Physics.p_mag s * Physics.p_mag s + m * m /\
      m <= E /\ Physics.p_mag s <= E /\
      0 <= K <= Physics.p_mag s /\
      (K = 0 <-> Physics.p_mag s = 0).
Proof.
  intros table s m Hmass Hm log.
  pose proof (mag_nonneg (Physics.p s)) as Hp.
  change (G4.mag (Physics.p s)) with (Physics.p_mag s) in Hp.
  set (P := Physics.p_mag s) in *.
  exists (hypot P m), (hypot P m - m).
  assert (Hsq : hypot P m * hypot P m = P * P + m * m)
    by (unfold hypot; apply sqrt_sqrt; nra).
  assert (Hpos : 0 <= hypot P m) by apply sqrt_pos.
  split; [| split].
  - unfold Lookup.value, Physics.e, Lookup.bind, Lookup.ret in *.
    pose proof (Hmass log) as H1.
    destruct (Physics.mass table s log) as [o1 l1]. cbn in H1. subst o1. reflexivity.
  - unfold Lookup.value, Physics.ke, Physics.e, Lookup.bind, Lookup.ret in *.
    pose proof (Hmass log) as H1.
    destruct (Physics.mass table s log) as [o1 l1]. cbn in H1. subst o1.
    pose proof (Hmass l1) as H2.
    destruct (Physics.mass table s l1) as [o2 l2]. cbn in H2. subst o2. reflexivity.
  - repeat split; try nra.
Qed.

Lemma energy_relations_witness :
  exists E K : R,
    Lookup.value (Physics.e Examples.muon_only (Physics.mkBasic 13 3 4 0)) [] = Some E /\
    Lookup.value (Physics.ke Examples.muon_only (Physics.mkBasic 13 3 4 0)) [] = Some K /\
    K = E - 105.
Proof.
  destruct (energy_relations Examples.muon_only (Physics.mkBasic 13 3 4 0) 105) with (log := @nil Z)
    as (E & K & H1 & H2 & H3 & _).
  - intros log. apply muon_mass_lookup.
  - lra.
  - exists E, K. repeat split; assumption.
Defined.

(** ** Mass and charge through [int] *)

Lemma trunc_small : forall r : R, -1 < r < 1 -> Physics.trunc r = 0%Z.
Proof.
  intros r Hr. unfold Physics.trunc.
  destruct (Rle_dec 0 r).
  - apply Zfloor_eq. cbn. lra.
  - apply Zceil_eq. cbn. lra.
Qed.

Lemma trunc_toward_zero :
  forall r : R,
    Rabs (IZR (Physics.trunc r)) <= Rabs r /\ Rabs (r - IZR (Physics.trunc r)) < 1.
Proof.
  intros r. unfold Physics.trunc.
  destruct (Rle_dec 0 r) as [Hr | Hr].
  - pose proof (Zfloor_bound r) as Hb.
    assert (H0 : 0 <= IZR (Zfloor r)) by (apply IZR_le, Zfloor_lub; cbn; lra).
    rewrite !Rabs_pos_eq by lra. lra.
  - pose proof (Zceil_bound r) as Hb.
    assert (H0 : IZR (Zceil r) <= 0).
    { apply IZR_le. rewrite <- (Zceil_eq 0 0) by (cbn; lra).
      apply Zceil_le. lra. }
    rewrite (Rabs_left1 (IZR (Zceil r))), (Rabs_left r), (Rabs_left1 (r - _)) by lra.
    lra.
Qed.

Lemma through_int_value :
  forall r v : R, Physics.through_int r = Some v -> v = IZR (Physics.trunc r).
Proof.
  intros r v. unfold Physics.through_int, Physics.double_to_int. cbv zeta.
  destruct (andb _ _); cbn; intros H; [injection H; auto | discriminate].
Qed.

Lemma through_int_small : forall r : R, -1 < r < 1 -> Physics.through_int r = Some 0.
Proof.
  intros r Hr. unfold Physics.through_int, Physics.double_to_int.
  rewrite trunc_small by assumption. reflexivity.
Qed.

Lemma charge_run :
  forall (table : G4.G4ParticleTable) (id : Z) (log : list Z),
    Physics.GetParticleCharge table id log
    = if (id =? 0)%Z then (Some 0, log)
      else (match table id with
            | Some d => Physics.through_int (G4.GetPDGCharge d)
            | None => None
            end, log ++ [id]).
Proof.
  intros table id log.
  unfold Physics.GetParticleCharge, Lookup.bind.
  rewrite property_run.
  destruct (id =? 0)%Z; [reflexivity |].
  destruct (table id) as [d |]; [| reflexivity].
  unfold Physics.through_int.
  destruct (Physics.double_to_int (G4.GetPDGCharge d)); reflexivity.
Qed.

(** X12: [GetParticleMass] and [GetParticleCharge] return their property
    through [int].  What comes back for a known identifier is a whole
    number, no larger in absolute value than the table's value and less
    than 1 away from it; a value strictly between -1 and 1 comes back as
    0. *)
Theorem mass_and_charge_through_int :
  forall (table : G4.G4ParticleTable) (id : Z) (d : G4.G4ParticleDefinition) (log : list Z),
    id <> 0%Z -> table id = Some d ->
    (forall v : R,
       Lookup.value (Physics.GetParticleMass table id) log = Some v ->
       (exists n : Z, v = IZR n) /\
       Rabs v <= Rabs (G4.GetPDGMass d) /\ Rabs (G4.GetPDGMass d - v) < 1) /\
    (forall v : R,
       Lookup.value (Physics.GetParticleCharge table id) log = Some v ->
       (exists n : Z, v = IZR n) /\
       Rabs v <= Rabs (G4.GetPDGCharge d) /\ Rabs (G4.GetPDGCharge d - v) < 1) /\
    (-1 < G4.GetPDGMass d < 1 ->
     Lookup.value (Physics.GetParticleMass table id) log = Some 0) /\
    (-1 < G4.GetPDGCharge d < 1 ->
     Lookup.value (Physics.GetParticleCharge table id) log = Some 0).
Proof.
  intros table id d log Hid Hd.
  assert (Hm : Lookup.value (Physics.GetParticleMass table id) log
               = Physics.through_int (G4.GetPDGMass d)).
  { unfold Lookup.value.
    change (Physics.GetParticleMass table id log)
      with (Physics.mass table (Physics.mkBasic id 0 0 0) log).
    rewrite mass_run. cbn [Physics.id]. rewrite Hd.
    destruct (Z.eqb_spec id 0); [contradiction | reflexivity]. }
  assert (Hc : Lookup.value (Physics.GetParticleCharge table id) log
               = Physics.through_int (G4.GetPDGCharge d)).
  { unfold Lookup.value. rewrite charge_run, Hd.
    destruct (Z.eqb_spec id 0); [contradiction | reflexivity]. }
  rewrite Hm, Hc.
  split; [| split; [| split]].
  - intros v Hv. apply through_int_value in Hv. subst v.
    split; [eexists; reflexivity | apply trunc_toward_zero].
  - intros v Hv. apply through_int_value in Hv. subst v.
    split; [eexists; reflexivity | apply trunc_toward_zero].
  - apply through_int_small.
  - apply through_int_small.
Qed.

(** The charge -1/3 of the down quark comes back as 0. *)
Lemma mass_and_charge_through_int_witness :
  Lookup.value (Physics.GetParticleCharge Examples.down_quark_only 1) [] = Some 0.
Proof.
  destruct (mass_and_charge_through_int Examples.down_quark_only 1
              (G4.mkDef 4.7 (- (1 / 3)) "d") [])
    as (_ & _ & _ & H); [discriminate | reflexivity |].
  apply H. cbn. lra.
Defined.

(** ** Rotations compose *)

(** X13: [_rotate] by 0 returns the pair, two rotations in a row are the
    rotation by the sum of the angles, the rotation by [- theta] undoes
    the rotation by [theta], and the length of the pair is kept. *)
Theorem rotate_laws :
  forall a b theta theta' : R,
    Physics._rotate a b 0 = (a, b) /\
    (let r := Physics._rotate a b theta in
     Physics._rotate (fst r) (snd r) theta' = Physics._rotate a b (theta + theta')) /\
    (let r := Physics._rotate a b theta in
     Physics._rotate (fst r) (snd r) (- theta) = (a, b)) /\
    (let r := Physics._rotate a b theta in
     sqrt (fst r * fst r + snd r * snd r) = sqrt (a * a + b * b)).
Proof.
  intros a b theta theta'.
  pose proof (sin2_cos2 theta) as H1. unfold Rsqr in H1.
  split; [| split; [| split]].
  - unfold Physics._rotate. rewrite cos_0, sin_0. f_equal; ring.
  - unfold Physics._rotate; cbn. rewrite cos_plus, sin_plus. f_equal; ring.
  - unfold Physics._rotate; cbn. rewrite cos_neg, sin_neg. f_equal.
    + replace ((a * cos theta - b * sin theta) * cos theta -
               (a * sin theta + b * cos theta) * - sin theta)
        with (a * (sin theta * sin theta + cos theta * cos theta)) by ring.
      rewrite H1. ring.
    + replace ((a * cos theta - b * sin theta) * - sin theta +
               (a * sin theta + b * cos theta) * cos theta)
        with (b * (sin theta * sin theta + cos theta * cos theta)) by ring.
      rewrite H1. ring.
  - cbv zeta. f_equal. apply rotate_norm.
Qed.

(** ** What [set_phi] and [set_eta] keep, and how they compose *)

Lemma eta_by_mag :
  forall s s' : Physics.BasicParticle,
    Physics.px s' = Physics.px s -> Physics.p_mag s' = Physics.p_mag s ->
    Physics.BasicParticle_eta s' = Physics.BasicParticle_eta s /\
    Physics.BasicParticle_pT s' = Physics.BasicParticle_pT s.
Proof.
  intros s s' Hx Hm.
  unfold Physics.BasicParticle_eta, Physics.BasicParticle_pT.
  fold (Physics.p_mag s) (Physics.p_mag s'). rewrite Hx, Hm. split; reflexivity.
Qed.

(** X14: [set_phi] leaves [eta()] and [pT()] as they were, for every record
    and every [new_phi]. *)
Theorem set_phi_keeps_eta_pT :
  forall (s : Physics.BasicParticle) (new_phi : R),
    Physics.BasicParticle_eta (Physics.set_phi s new_phi) = Physics.BasicParticle_eta s /\
    Physics.BasicParticle_pT (Physics.set_phi s new_phi) = Physics.BasicParticle_pT s.
Proof.
  intros s new_phi. apply eta_by_mag.
  - reflexivity.
  - apply set_phi_p_mag.
Qed.

(** With transverse momentum of length [r], [set_phi(a)] puts the
    transverse part at [(r sin a, - r cos a)]. *)
Lemma set_phi_closed :
  forall (s : Physics.BasicParticle) (a : R),
    Physics.py s <> 0 \/ Physics.pz s <> 0 ->
    Physics.set_phi s a
    = Physics.mkBasic (Physics.id s) (Physics.px s)
        (sqrt (Physics.py s * Physics.py s + Physics.pz s * Physics.pz s) * sin a)
        (- (sqrt (Physics.py s * Physics.py s + Physics.pz s * Physics.pz s) * cos a)).
Proof.
  intros s a Ht.
  pose proof (transverse_pos _ _ Ht) as Hpos.
  assert (Hrad : 0 < - Physics.pz s * - Physics.pz s + Physics.py s * Physics.py s) by nra.
  destruct (atan2_polar_form (- Physics.pz s) (Physics.py s) Hrad) as [Hc Hs].
  fold (Physics.BasicParticle_phi s) in Hc, Hs.
  replace (- Physics.pz s * - Physics.pz s + Physics.py s * Physics.py s)
    with (Physics.py s * Physics.py s + Physics.pz s * Physics.pz s) in Hc, Hs by ring.
  set (r := sqrt _) in *.
  assert (Hrot :
    Physics._rotate (- Physics.pz s) (Physics.py s) (a - Physics.BasicParticle_phi s)
    = (r * cos a, r * sin a)).
  { rewrite <- (rotate_polar r (Physics.BasicParticle_phi s) a).
    rewrite Hc, Hs. reflexivity. }
  unfold Physics.set_phi. cbv zeta. rewrite Hrot. reflexivity.
Qed.

Lemma set_phi_closed_twice :
  forall (s : Physics.BasicParticle) (a b : R),
    Physics.py s <> 0 \/ Physics.pz s <> 0 ->
    Physics.set_phi (Physics.set_phi s a) b = Physics.set_phi s b.
Proof.
  intros s a b Ht.
  rewrite (set_phi_closed s b Ht), (set_phi_closed s a Ht).
  pose proof (transverse_pos _ _ Ht) as Hpos.
  set (r := sqrt (Physics.py s * Physics.py s + Physics.pz s * Physics.pz s)).
  assert (Hr : 0 < r) by (apply sqrt_lt_R0; exact Hpos).
  pose proof (sin2_cos2 a) as Hsc. unfold Rsqr in Hsc.
  rewrite set_phi_closed; cbn [Physics.id Physics.px Physics.py Physics.pz].
  - replace (r * sin a * (r * sin a) + - (r * cos a) * - (r * cos a))
      with (r * r * (sin a * sin a + cos a * cos a)) by ring.
    rewrite Hsc, Rmult_1_r, sqrt_square by lra. reflexivity.
  - destruct (Req_dec (sin a) 0) as [Hs0 | Hs0].
    + right. assert (cos a <> 0) by (intros Hc0; rewrite Hs0, Hc0 in Hsc; lra).
      apply Ropp_neq_0_compat. apply Rmult_integral_contrapositive_currified; lra.
    + left. apply Rmult_integral_contrapositive_currified; lra.
Qed.

(** X15: the last [set_phi] wins: [set_phi(a)] followed by [set_phi(b)]
    gives the record that [set_phi(b)] alone gives, for every record. *)
Theorem set_phi_last_wins :
  forall (s : Physics.BasicParticle) (a b : R),
    Physics.set_phi (Physics.set_phi s a) b = Physics.set_phi s b.
Proof.
  intros s a b.
  destruct (Req_dec (Physics.py s) 0) as [Hy | Hy];
    [destruct (Req_dec (Physics.pz s) 0) as [Hz | Hz] |].
  - transitivity (Physics.mkBasic (Physics.id s) (Physics.px s) 0 0).
    + rewrite (set_phi_on_axis s a Hy Hz).
      apply (set_phi_on_axis (Physics.mkBasic (Physics.id s) (Physics.px s) 0 0) b);
        reflexivity.
    + symmetry. now apply set_phi_on_axis.
  - apply set_phi_closed_twice. right; assumption.
  - apply set_phi_closed_twice. left; assumption.
Qed.

Lemma set_eta_rotation :
  forall (s : Physics.BasicParticle) (e : R),
    Physics.py s = 0 -> Physics.pz s < 0 ->
    Physics._rotate (Physics.px s) (- Physics.pz s)
      (Physics._eta_to_theta e - Physics._eta_to_theta (Physics.BasicParticle_eta s))
    = (Physics.p_mag s * tanh e, Physics.p_mag s * / cosh e).
Proof.
  intros s e Hpy Hpz.
  assert (Ht : Physics.py s <> 0 \/ Physics.pz s <> 0) by (right; lra).
  pose proof (mag_pos (Physics.px s) _ _ Ht) as Hm.
  pose proof (longitudinal_fraction (Physics.px s) _ _ Ht) as Hu.
  pose proof (pT_is_transverse (Physics.px s) _ _ Ht) as HpT.
  fold (Physics.p_mag s) in Hm, Hu, HpT.
  set (m := Physics.p_mag s) in *.
  rewrite Hpy in HpT.
  replace (0 * 0 + Physics.pz s * Physics.pz s)
    with (- Physics.pz s * - Physics.pz s) in HpT by ring.
  rewrite sqrt_square in HpT by lra.
  assert (Heta : Physics.BasicParticle_eta s = atanh (Physics.px s / m))
    by (apply eta_of_mag; fold m; lra).
  set (theta0 := Physics._eta_to_theta (atanh (Physics.px s / m))).
  assert (Hx : Physics.px s = m * cos theta0).
  { unfold theta0. rewrite cos_eta_to_theta, tanh_atanh by assumption. field. lra. }
  assert (Hz : - Physics.pz s = m * sin theta0).
  { unfold theta0. rewrite sin_eta_to_theta. rewrite <- HpT. reflexivity. }
  rewrite Heta. fold theta0.
  rewrite <- cos_eta_to_theta, <- sin_eta_to_theta.
  rewrite <- (rotate_polar m theta0 (Physics._eta_to_theta e)).
  rewrite <- Hx, <- Hz. reflexivity.
Qed.

Lemma set_eta_closed :
  forall (s : Physics.BasicParticle) (e : R),
    Physics.py s = 0 -> Physics.pz s < 0 ->
    Physics.set_eta s e
    = Physics.mkBasic (Physics.id s) (Physics.p_mag s * tanh e) (Physics.py s)
        (- (Physics.p_mag s * / cosh e)).
Proof.
  intros s e Hpy Hpz.
  unfold Physics.set_eta. cbv zeta.
  rewrite (set_eta_rotation s e Hpy Hpz). reflexivity.
Qed.

Lemma half_plane_mag_pos :
  forall s : Physics.BasicParticle, Physics.pz s < 0 -> 0 < Physics.p_mag s.
Proof.
  intros s Hpz.
  apply (mag_pos (Physics.px s) (Physics.py s) (Physics.pz s)). right; lra.
Qed.

(** X16: on a record with [py = 0] and [pz < 0], of momentum magnitude [m],
    [set_eta(e)] installs [px = m tanh e] and [pz = - m / cosh e]: the
    record stays in that half plane, [pT()] becomes [m / cosh e], and a
    second [set_eta] wins over the first. *)
Theorem set_eta_half_plane_laws :
  forall (s : Physics.BasicParticle) (e : R),
    Physics.py s = 0 -> Physics.pz s < 0 ->
    Physics.set_eta s e
      = Physics.mkBasic (Physics.id s) (Physics.p_mag s * tanh e) 0
          (- (Physics.p_mag s / cosh e)) /\
    Physics.pz (Physics.set_eta s e) < 0 /\
    Physics.BasicParticle_pT (Physics.set_eta s e) = Physics.p_mag s / cosh e /\
    (forall e' : R, Physics.set_eta (Physics.set_eta s e) e' = Physics.set_eta s e').
Proof.
  intros s e Hpy Hpz.
  pose proof (half_plane_mag_pos s Hpz) as Hm.
  pose proof (cosh_pos e) as Hc.
  assert (Hneg : Physics.pz (Physics.set_eta s e) < 0).
  { rewrite set_eta_closed by assumption. cbn.
    assert (0 < Physics.p_mag s * / cosh e)
      by (apply Rmult_lt_0_compat; [assumption | now apply Rinv_0_lt_compat]).
    lra. }
  split; [| split; [assumption | split]].
  - rewrite set_eta_closed by assumption. rewrite Hpy. reflexivity.
  - unfold Physics.BasicParticle_pT. fold (Physics.p_mag (Physics.set_eta s e)). cbv zeta.
    pose proof (set_eta_half_plane s e Hpy Hpz) as He.
    rewrite eta_of_mag in He by (rewrite set_eta_p_mag; lra).
    rewrite He, set_eta_p_mag.
    destruct (Req_dec_T (Physics.p_mag s) 0); [lra | reflexivity].
  - intros e'.
    rewrite (set_eta_closed (Physics.set_eta s e) e') by (assumption || reflexivity).
    rewrite (set_eta_closed s e') by assumption.
    rewrite set_eta_p_mag. reflexivity.
Qed.

Lemma set_eta_half_plane_laws_witness :
  Physics.set_eta (Physics.set_eta (Physics.mkBasic 13 3 0 (- (4))) 5) 1
    = Physics.set_eta (Physics.mkBasic 13 3 0 (- (4))) 1.
Proof.
  destruct (set_eta_half_plane_laws (Physics.mkBasic 13 3 0 (- (4))) 5) as (_ & _ & _ & H).
  - reflexivity.
  - cbn. lra.
  - apply H.
Defined.

(** X17: a setter by rotation does nothing to a record that has no
    momentum in the plane it rotates: [set_eta] returns the record as it
    is when [px = pz = 0], and [set_phi] when [py = pz = 0]. *)
Theorem rotation_setters_need_a_lever :
  forall (s : Physics.BasicParticle) (angle : R),
    (Physics.px s = 0 -> Physics.pz s = 0 -> Physics.set_eta s angle = s) /\
    (Physics.py s = 0 -> Physics.pz s = 0 -> Physics.set_phi s angle = s).
Proof.
  intros [i a b c] angle. cbn. split; intros H1 H2; subst.
  - unfold Physics.set_eta, Physics._rotate. cbn. f_equal; ring.
  - unfold Physics.set_phi, Physics._rotate. cbn. f_equal; ring.
Qed.

Lemma rotation_setters_need_a_lever_witness :
  Physics.set_eta (Physics.mkBasic 13 0 1 0) 5 = Physics.mkBasic 13 0 1 0.
Proof.
  destruct (rotation_setters_need_a_lever (Physics.mkBasic 13 0 1 0) 5) as [H _].
  apply H; reflexivity.
Defined.

(** ** The getters as cylindrical coordinates *)

(** X18: for a record with transverse momentum, [pT()] is the length of
    [(py, pz)], [p_mag()] is [pT() cosh eta()], [phi()] lies in (-PI, PI],
    and the momentum is [(pT sinh eta, pT sin phi, - pT cos phi)]. *)
Theorem getters_are_coordinates :
  forall s : Physics.BasicParticle,
    Physics.py s <> 0 \/ Physics.pz s <> 0 ->
    let pT := Physics.BasicParticle_pT s in
    let eta := Physics.BasicParticle_eta s in
    let phi := Physics.BasicParticle_phi s in
    pT = sqrt (Physics.py s * Physics.py s + Physics.pz s * Physics.pz s) /\
    0 < pT /\
    Physics.p_mag s = pT * cosh eta /\
    - PI < phi <= PI /\
    Physics.px s = pT * sinh eta /\
    Physics.py s = pT * sin phi /\
    Physics.pz s = - pT * cos phi.
Proof.
  intros s Ht pT eta phi.
  pose proof (mag_pos (Physics.px s) _ _ Ht) as Hm.
  pose proof (pT_is_transverse (Physics.px s) _ _ Ht) as HpT.
  pose proof (round_trip_components (Physics.px s) _ _ Ht) as Hrt.
  pose proof (transverse_pos _ _ Ht) as Hpos.
  fold (Physics.p_mag s) in Hm, HpT.
  assert (HpT' : pT = Physics.p_mag s / cosh (atanh (Physics.px s / Physics.p_mag s))).
  { unfold pT, Physics.BasicParticle_pT. fold (Physics.p_mag s). cbv zeta.
    destruct (Req_dec_T (Physics.p_mag s) 0); [lra | reflexivity]. }
  assert (Heta : eta = atanh (Physics.px s / Physics.p_mag s))
    by (apply eta_of_mag; lra).
  assert (Htrip : Physics.Convert_momentum (G4.mkVec (Physics.px s) (Physics.py s) (Physics.pz s))
                  = Physics.mkPLT pT eta phi).
  { unfold Physics.Convert_momentum. fold (Physics.p_mag s). cbv zeta.
    destruct (Req_dec_T (Physics.p_mag s) 0); [lra |].
    rewrite HpT', Heta. reflexivity. }
  rewrite Htrip in Hrt. unfold Physics.Convert_triplet in Hrt. cbn in Hrt.
  injection Hrt as Hx Hy Hz.
  pose proof (cosh_pos eta) as Hc.
  split; [rewrite HpT'; exact HpT |].
  split; [rewrite HpT', HpT; now apply sqrt_lt_R0 |].
  split; [rewrite HpT', <- Heta; field; lra |].
  split; [apply atan2_bound |].
  repeat split; symmetry; assumption.
Qed.

Lemma getters_are_coordinates_witness :
  Physics.BasicParticle_pT (Physics.mkBasic 13 3 4 0) = sqrt (4 * 4 + 0 * 0).
Proof.
  destruct (getters_are_coordinates (Physics.mkBasic 13 3 4 0)) as (H & _).
  - left; cbn; lra.
  - exact H.
Defined.

(** X19: [_eta_to_theta] undoes the pseudorapidity formula of the getters.
    Its value lies strictly between 0 and PI, has cosine [tanh eta] and
    sine [1 / cosh eta], so that [atanh] of its cosine is [eta] again; and
    the angle of [- eta] is PI minus the angle of [eta]. *)
Theorem eta_to_theta_inverts_eta :
  forall eta : R,
    0 < Physics._eta_to_theta eta < PI /\
    cos (Physics._eta_to_theta eta) = tanh eta /\
    sin (Physics._eta_to_theta eta) = / cosh eta /\
    atanh (cos (Physics._eta_to_theta eta)) = eta /\
    Physics._eta_to_theta (- eta) = PI - Physics._eta_to_theta eta.
Proof.
  intros eta.
  assert (Hrange : forall a : R, 0 < 2 * atan (exp a) < PI).
  { intros a. pose proof (atan_pos _ (exp_pos a)). pose proof (atan_bound (exp a)). lra. }
  split; [| split; [| split; [| split]]].
  - destruct (Rlt_dec eta 0) as [He | He].
    + rewrite eta_to_theta_neg by assumption. pose proof (Hrange eta). lra.
    + rewrite eta_to_theta_nonneg by lra. apply Hrange.
  - apply cos_eta_to_theta.
  - apply sin_eta_to_theta.
  - rewrite cos_eta_to_theta. apply atanh_tanh.
  - destruct (Rlt_dec eta 0) as [He | He].
    + rewrite (eta_to_theta_neg eta), (eta_to_theta_nonneg (- eta)) by lra.
      rewrite Ropp_involutive. ring.
    + destruct (Req_dec eta 0) as [E | E].
      * subst eta. rewrite Ropp_0, eta_to_theta_0. field.
      * rewrite (eta_to_theta_nonneg eta), (eta_to_theta_neg (- eta)) by lra.
        reflexivity.
Qed.

(** ** Zero momentum on doubles *)

(** X20: at zero momentum, whatever the signs of the three zeros, [phi()]
    compares equal to the [phi] of [Convert] exactly when [pz] is the
    negative zero; with [pz = +0] it returns PI or -PI. *)
Theorem IEEE_phi_at_zero_momentum :
  forall L : IEEE.libm, IEEE.annex_F L ->
    forall (i : Z) (nx ny nz : bool),
      let zero_of (negative : bool) := if negative then (- 0)%float else 0%float in
      let s := IEEE.mkBasic i (zero_of nx) (zero_of ny) (zero_of nz) in
      IEEE.phi (IEEE.pseudo_lorentz_triplet L s) = 0%float /\
      PrimFloat.eqb (IEEE.BasicParticle_phi L s)
                    (IEEE.phi (IEEE.pseudo_lorentz_triplet L s)) = nz /\
      (nz = false ->
       IEEE.BasicParticle_phi L s = (if ny then - IEEE.M_PI else IEEE.M_PI)%float).
Proof.
  intros L HF i nx ny nz zero_of s.
  assert (Hconv : IEEE.phi (IEEE.pseudo_lorentz_triplet L s) = 0%float).
  { unfold s, zero_of. destruct nx, ny, nz; reflexivity. }
  rewrite Hconv.
  assert (Hphi : IEEE.BasicParticle_phi L s
                 = IEEE.m_atan2 L (zero_of ny) (if nz then 0 else - 0)%float).
  { unfold IEEE.BasicParticle_phi, s, zero_of. destruct nz; reflexivity. }
  rewrite Hphi. unfold zero_of.
  pose proof (IEEE.atan2_pzero_nzero L HF) as H1.
  pose proof (IEEE.atan2_nzero_nzero L HF) as H2.
  pose proof (IEEE.atan2_pzero_pzero L HF) as H3.
  pose proof (IEEE.atan2_nzero_pzero L HF) as H4.
  destruct ny, nz; rewrite ?H1, ?H2, ?H3, ?H4;
    (split; [reflexivity | split; [reflexivity | intros E; (reflexivity || discriminate E)]]).
Qed.

Lemma IEEE_phi_at_zero_momentum_witness :
  PrimFloat.eqb
    (IEEE.BasicParticle_phi IEEE.special_values_only (IEEE.mkBasic 13 0 0 (- 0)%float))
    (IEEE.phi (IEEE.pseudo_lorentz_triplet IEEE.special_values_only
                 (IEEE.mkBasic 13 0 0 (- 0)%float))) = true.
Proof.
  destruct (IEEE_phi_at_zero_momentum IEEE.special_values_only special_values_only_annex_F
              13 false false true) as (_ & H & _).
  exact H.
Defined.

(** ** [set_ke] beyond the kinetic energy *)

Lemma p_unit_rescaled :
  forall (s : Physics.BasicParticle) (c : R),
    Physics.p_mag s <> 0 -> 0 < c ->
    Physics.p_unit (Physics.set_p s (G4.scale c (Physics.p_unit s))) = Physics.p_unit s.
Proof.
  intros s c Hm Hc.
  change (G4.unit (G4.scale c (G4.unit (Physics.p s))) = G4.unit (Physics.p s)).
  change (Physics.p_mag s) with (G4.mag (Physics.p s)) in Hm.
  rewrite unit_scale_pos, unit_unit; auto using mag_unit_nonzero.
Qed.

(** X21: on a record with nonzero momentum and mass [m >= 0], [set_ke(k)]
    with [k > 0] keeps the unit direction and [id], gives momentum of
    magnitude [sqrt (k (k + 2 m))], and makes [e()] return [k + m]. *)
Theorem set_ke_effect :
  forall (table : G4.G4ParticleTable) (s : Physics.BasicParticle) (k m : R),
    (forall log : list Z, Lookup.value (Physics.mass table s) log = Some m) ->
    0 <= m -> 0 < k -> Physics.p_mag s <> 0 ->
    forall log : list Z,
    exists s' : Physics.BasicParticle,
      Lookup.value (Physics.set_ke table s k) log = Some s' /\
      Physics.id s' = Physics.id s /\
      Physics.p_unit s' = Physics.p_unit s /\
      Physics.p_mag s' = sqrt (k * (k + 2 * m)) /\
      Lookup.value (Physics.e table s') log = Some (k + m).
Proof.
  intros table s k m Hmass Hm Hk Hp log.
  exists (Physics.set_p s (G4.scale (sqrt (k * (k + 2 * m))) (Physics.p_unit s))).
  assert (Hc : 0 < sqrt (k * (k + 2 * m))) by (apply sqrt_lt_R0; nra).
  assert (Hmag : Physics.p_mag
                   (Physics.set_p s (G4.scale (sqrt (k * (k + 2 * m))) (Physics.p_unit s)))
                 = sqrt (k * (k + 2 * m)))
    by (apply p_mag_rescaled; [assumption | lra]).
  split; [apply set_ke_value, Hmass |].
  split; [reflexivity |].
  split; [| split; [exact Hmag |]].
  - now apply p_unit_rescaled.
  - set (s' := Physics.set_p s _) in *.
    assert (Hmass' : forall l, Lookup.value (Physics.mass table s') l = Some m)
      by exact Hmass.
    unfold Lookup.value, Physics.e, Lookup.bind, Lookup.ret in *.
    pose proof (Hmass' log) as H1.
    destruct (Physics.mass table s' log) as [o1 l1]. cbn in H1. subst o1. cbn.
    rewrite Hmag, hypot_ke by lra. reflexivity.
Qed.

Lemma set_ke_effect_witness :
  exists s' : Physics.BasicParticle,
    Lookup.value (Physics.set_ke Examples.muon_only (Physics.mkBasic 13 3 4 0) 100) []
      = Some s' /\
    Lookup.value (Physics.e Examples.muon_only s') [] = Some (100 + 105).
Proof.
  destruct (set_ke_effect Examples.muon_only (Physics.mkBasic 13 3 4 0) 100 105)
    with (log := @nil Z) as (s' & H1 & _ & _ & _ & H2).
  - intros log. apply muon_mass_lookup.
  - lra.
  - lra.
  - unfold Physics.p_mag, G4.mag, G4.mag2; cbn.
    replace (3 * 3 + 4 * 4 + 0 * 0) with (5 * 5) by ring.
    rewrite sqrt_square; lra.
  - exists s'. split; assumption.
Defined.

(** ** [set_eta] on the side [pz > 0] *)

Lemma tanh_opp : forall a : R, tanh (- a) = - tanh a.
Proof.
  intros a. unfold tanh. rewrite sinh_opp.
  replace (cosh (- a)) with (cosh a) by (unfold cosh; rewrite Ropp_involutive; field).
  pose proof (cosh_pos a). field. lra.
Qed.

Lemma p_mag_along_z :
  forall (i : Z) (c : R), 0 < c -> Physics.p_mag (Physics.mkBasic i 0 0 c) = c.
Proof.
  intros i c Hc. unfold Physics.p_mag, G4.mag, G4.mag2; cbn.
  replace (0 * 0 + 0 * 0 + c * c) with (c * c) by ring.
  apply sqrt_square. lra.
Qed.

(** The rotation of [set_eta] on a record (0, 0, c) with [c > 0]: the
    pair [(px, -pz) = (0, -c)] sits at angle [- PI / 2], while the rotation
    starts from the polar angle [PI / 2] of [eta() = 0]. *)
Lemma set_eta_positive_pz_form :
  forall (i : Z) (c e : R),
    0 < c ->
    Physics.set_eta (Physics.mkBasic i 0 0 c) e
      = Physics.mkBasic i (- (c * tanh e)) 0 (c * / cosh e).
Proof.
  intros i c e Hc.
  unfold Physics.set_eta. cbv zeta.
  rewrite (eta_without_px (Physics.mkBasic i 0 0 c)) by reflexivity.
  rewrite eta_to_theta_0.
  unfold Physics._rotate. cbn.
  rewrite cos_minus, sin_minus, cos_PI2, sin_PI2.
  rewrite cos_eta_to_theta, sin_eta_to_theta.
  f_equal; ring.
Qed.

(** C4: [set_eta] misses its target on the side [pz > 0].  On the record
    (0, 0, c) with [c > 0], [set_eta(new_eta)] keeps [id], [py] and the
    magnitude, but the pseudorapidity read back is [- new_eta]; and a
    record with the same [id], [py] and magnitude whose pseudorapidity is
    [new_eta] exists, so the claim can be met there. *)
Theorem set_eta_mirrors_positive_pz :
  forall (i : Z) (c new_eta : R),
    0 < c ->
    let s := Physics.mkBasic i 0 0 c in
    Physics.BasicParticle_eta (Physics.set_eta s new_eta) = - new_eta /\
    Physics.py (Physics.set_eta s new_eta) = Physics.py s /\
    Physics.p_mag (Physics.set_eta s new_eta) = Physics.p_mag s /\
    exists target : Physics.BasicParticle,
      Physics.id target = Physics.id s /\
      Physics.py target = Physics.py s /\
      Physics.p_mag target = Physics.p_mag s /\
      Physics.BasicParticle_eta target = new_eta.
Proof.
  intros i c e Hc s.
  assert (Hmag : Physics.p_mag (Physics.set_eta s e) = Physics.p_mag s)
    by apply set_eta_p_mag.
  assert (Hs : Physics.p_mag s = c) by (apply p_mag_along_z; exact Hc).
  split; [| split; [reflexivity | split; [exact Hmag |]]].
  - rewrite eta_of_mag by (rewrite Hmag, Hs; lra).
    rewrite Hmag, Hs. unfold s. rewrite set_eta_positive_pz_form by assumption. cbn.
    replace (- (c * tanh e) / c) with (tanh (- e)) by (rewrite tanh_opp; field; lra).
    apply atanh_tanh.
  - exists (Physics.set_eta (Physics.mkBasic i 0 0 (- c)) e).
    split; [reflexivity | split; [reflexivity | split]].
    + rewrite set_eta_p_mag, Hs.
      unfold Physics.p_mag, G4.mag, G4.mag2; cbn.
      replace (0 * 0 + 0 * 0 + - c * - c) with (c * c) by ring.
      apply sqrt_square. lra.
    + apply set_eta_half_plane; cbn; lra.
Qed.

(** The record (0, 0, 1) sent to pseudorapidity 1 reads back -1. *)
Lemma set_eta_mirrors_positive_pz_witness :
  Physics.BasicParticle_eta (Physics.set_eta (Physics.mkBasic 13 0 0 1) 1) = - (1).
Proof.
  destruct (set_eta_mirrors_positive_pz 13 1 1) as (H & _); [lra | exact H].
Defined.
